(** * License-plate OCR pipeline: a shallow embedding and its properties

    The development follows the three utility classes of the repository:
    [ImageHandler] (utils/image_handler.py), [PlateDetector]
    (utils/plate_detector.py) and [OCRProcessor] (utils/ocr_processor.py).

    Conventions of the embedding.
    - A Python [int] is a [Z]; [len] returns a [Z].
    - A Python [str] is the list of its Unicode code points ([N]) wherever
      the code inspects characters (upper-casing, trimming, the character
      class of the regular expression); messages that are only compared and
      concatenated are [string]s.
    - A finite Python [float] is the rational number it denotes ([Q]);
      comparisons of floats are comparisons of rationals, and an arithmetic
      operation rounds its exact result to binary64 ([rn64]).
    - The pre-trained engines and the OpenCV / PIL primitives are fields of
      records that play the role of [self] and of the imported modules.
    - A Python exception is a [Raise] in the [result] type.

    Part I embeds the source; Part II defines the notions the statements
    use; Part III fixes test data; Part IV holds the lemmas and the
    theorems of the claims C1 to C10, followed by further properties of
    the code, X1 to X18. *)

From Stdlib Require Import String Ascii.
From Stdlib Require Import List ZArith NArith QArith Qround Qabs Qpower Lia Lqa Bool.
From Stdlib Require Import Permutation Sorted.
Import ListNotations.

Open Scope Z_scope.

(* ================================================================== *)
(** * Part I: the model *)
(* ================================================================== *)

(** ** Python built-ins *)

(** [len(l)]. *)
Definition len {A : Type} (l : list A) : Z := Z.of_nat (length l).

(** Truth value of a list: [not l] holds exactly for the empty list. *)
Definition py_not {A : Type} (l : list A) : bool :=
  match l with [] => true | _ :: _ => false end.

(** [a > b] on finite floats. *)
Definition Qgtb (a b : Q) : bool := negb (Qle_bool a b).

(** The loop of [max(iterable, key=...)] once the first item has been
    taken as the running maximum: a later item replaces it only when its
    key is strictly greater. *)
Fixpoint max_from {A : Type} (key : A -> Q) (best : A) (l : list A) : A :=
  match l with
  | [] => best
  | x :: l' => max_from key (if Qgtb (key x) (key best) then x else best) l'
  end.

(** ** Strings as code points *)

Definition char := N.
Definition str := list char.

(** Code points of an ASCII literal. *)
Definition str_of (s : string) : str := map N_of_ascii (list_ascii_of_string s).

(** [Py_UNICODE_ISSPACE]: the code points [str.strip()] removes. *)
Definition isspace (c : char) : bool :=
  (((9 <=? c) && (c <=? 13)) || ((28 <=? c) && (c <=? 32))
   || (c =? 133) || (c =? 160) || (c =? 5760)
   || ((8192 <=? c) && (c <=? 8202))
   || (c =? 8232) || (c =? 8233) || (c =? 8239) || (c =? 8287)
   || (c =? 12288))%N.

Fixpoint lstrip (s : str) : str :=
  match s with
  | [] => []
  | c :: s' => if isspace c then lstrip s' else s
  end.

Definition rstrip (s : str) : str := rev (lstrip (rev s)).

(** [s.strip()] *)
Definition strip (s : str) : str := rstrip (lstrip s).

(** The upper-case mapping of one code point.  On ASCII it is written out;
    above ASCII it is the full upper-case mapping of the interpreter's
    Unicode database, which may yield up to three code points. *)
Definition upper_char (toupper_full : char -> list char) (c : char) : list char :=
  (if c <? 128 then
     if (97 <=? c) && (c <=? 122) then [c - 32] else [c]
   else toupper_full c)%N.

(** [s.upper()] *)
Definition upper (toupper_full : char -> list char) (s : str) : str :=
  flat_map (upper_char toupper_full) s.

(** The character class [[A-Z0-9]]. *)
Definition in_AZ09 (c : char) : bool :=
  (((65 <=? c) && (c <=? 90)) || ((48 <=? c) && (c <=? 57)))%N.

(** [re.sub(r'[^A-Z0-9]', '', s)]: every character outside the class is
    replaced by the empty string. *)
Definition re_sub_not_AZ09 (s : str) : str := filter in_AZ09 s.

(** ** utils/ocr_processor.py *)

(** [OCRProcessor]: [reader] is the EasyOCR reader built by [__init__];
    [readtext] yields one [(bbox, text, conf)] triple per text run.
    [toupper] is the interpreter's upper-case table above ASCII. *)
Record OCRProcessor (ndarray bbox : Type) : Type := {
  readtext : ndarray -> list (bbox * str * Q);
  toupper : char -> list char
}.
Arguments readtext {ndarray bbox} _ _.
Arguments toupper {ndarray bbox} _ _.

Section OCRProcessorMethods.
Context {ndarray bbox : Type}.

(** [extract_text] *)
Definition extract_text (self : OCRProcessor ndarray bbox) (img : ndarray)
  : list (str * Q) :=
  let results := readtext self img in
  map (fun '(_, text, conf) => (text, conf)) results.

(** The cleaned form of a raw text, line 60. *)
Definition cleaned_of (self : OCRProcessor ndarray bbox) (text : str) : str :=
  re_sub_not_AZ09 (upper (toupper self) text).

(** One iteration of the filtering loop, lines 58-64. *)
Definition clean_step (self : OCRProcessor ndarray bbox)
    (cleaned_results : list (str * Q)) (item : str * Q) : list (str * Q) :=
  let '(text, conf) := item in
  let cleaned := cleaned_of self text in
  if (4 <=? len cleaned) && (len cleaned <=? 10)
  then cleaned_results ++ [(cleaned, conf)]
  else cleaned_results.

(** [extract_plate_number] *)
Definition extract_plate_number (self : OCRProcessor ndarray bbox)
    (img : ndarray) : option (str * Q) :=
  let results := extract_text self img in
  if py_not results then None
  else
    let cleaned_results := fold_left (clean_step self) results [] in
    if py_not cleaned_results then
      match results with
      | r :: rest =>
          let '(text, conf) := max_from snd r rest in
          Some (upper (toupper self) (strip text), conf)
      | [] => None
      end
    else
      match cleaned_results with
      | r :: rest => Some (max_from snd r rest)
      | [] => None
      end.
End OCRProcessorMethods.

(** ** Exceptions and sequencing *)

(** The exceptions the program can meet; [cv2_error] and [Exception] (any
    other instance of [Exception], as the decoders of PIL raise) carry
    their message. *)
Inductive exn : Type :=
| ZeroDivisionError
| IndexError
| cv2_error (msg : string)
| Exception (msg : string).

Inductive result (A : Type) : Type :=
| Return (a : A)
| Raise (e : exn).
Arguments Return {A} a.
Arguments Raise {A} e.

Definition bind {A B : Type} (m : result A) (k : A -> result B) : result B :=
  match m with
  | Return a => k a
  | Raise e => Raise e
  end.

(** A [for] loop that threads an accumulator and stops at the first
    exception. *)
Fixpoint for_each {A S : Type} (body : S -> A -> result S) (l : list A) (s : S)
  : result S :=
  match l with
  | [] => Return s
  | a :: l' => bind (body s a) (for_each body l')
  end.

(** ** binary64 arithmetic on the rationals *)

Definition pow2 (e : Z) : Q := (2 ^ e)%Q.

(** The binade of a positive rational: the [e] with [2^e <= q < 2^(e+1)]. *)
Definition binade (q : Q) : Z :=
  let e := Z.log2 (Qnum q) - Z.log2 (Zpos (Qden q)) in
  if Qle_bool (pow2 e) q then e else e - 1.

(** Nearest integer, ties to the even one. *)
Definition round_half_even (q : Q) : Z :=
  let f := Qfloor q in
  match (q - inject_Z f ?= 1 # 2)%Q with
  | Lt => f
  | Gt => f + 1
  | Eq => if Z.even f then f else f + 1
  end.

(** Exponent of the unit in the last place: 53 significant bits, and the
    subnormal spacing [2^-1074] at the bottom of the range. *)
Definition ulp_exp (q : Q) : Z := Z.max (binade q - 52) (-1074).

Definition rn64_pos (q : Q) : Q :=
  (inject_Z (round_half_even (q / pow2 (ulp_exp q))) * pow2 (ulp_exp q))%Q.

(** Round to nearest binary64, ties to even.  The exponent range is not
    bounded above: the operands of the program are ratios and products of
    32-bit integers and stay far below [2^1024]. *)
Definition rn64 (q : Q) : Q :=
  match (q ?= 0)%Q with
  | Eq => 0%Q
  | Gt => rn64_pos q
  | Lt => (- rn64_pos (- q))%Q
  end.

(** [float(n)] *)
Definition float_of_int (n : Z) : Q := rn64 (inject_Z n).

(** [a * b] on floats. *)
Definition fmul (a b : Q) : Q := rn64 (a * b).

(** [a / b] on floats. *)
Definition fdiv (a b : Q) : result Q :=
  if Qeq_bool b 0 then Raise ZeroDivisionError else Return (rn64 (a / b)).

(** [a / b] on ints: the correctly rounded quotient. *)
Definition int_truediv (a b : Z) : result Q :=
  if b =? 0 then Raise ZeroDivisionError
  else Return (rn64 (inject_Z a / inject_Z b)).

(** [int(x)]: truncation towards zero. *)
Definition int_of_float (x : Q) : Z :=
  if Qle_bool 0 x then Qfloor x else Qceiling x.

(** ** Arrays, slices and sorting *)

(** An image is the list of its rows; [shape[0]] is the number of rows and
    [shape[1]] the length of a row. *)
Definition ndarray (px : Type) : Type := list (list px).

Definition shape0 {px : Type} (img : ndarray px) : Z := len img.
Definition shape1 {px : Type} (img : ndarray px) : Z := len (hd [] img).

(** A slice bound brought into [0 .. length], counting from the end when
    negative. *)
Definition adjust_index (i length : Z) : Z :=
  if i <? 0 then Z.max 0 (i + length) else Z.min i length.

(** [l[start:stop]] *)
Definition py_slice {A : Type} (l : list A) (start stop : Z) : list A :=
  let a := adjust_index start (len l) in
  let b := adjust_index stop (len l) in
  firstn (Z.to_nat (b - a)) (skipn (Z.to_nat a) l).

(** [img[y1:y2, x1:x2]] *)
Definition slice2 {px : Type} (img : ndarray px) (y1 y2 x1 x2 : Z) : ndarray px :=
  map (fun row => py_slice row x1 x2) (py_slice img y1 y2).

(** [sorted(l, key=key, reverse=True)].  Python's sort is stable, also with
    [reverse=True]: the result is in descending key order and items of
    equal key keep their relative order.  These properties determine the
    result; the insertion sort below computes it.  An item passes the
    items of strictly greater key and stops in front of the first item
    whose key is not greater. *)
Fixpoint insert_desc {A : Type} (key : A -> Q) (x : A) (l : list A) : list A :=
  match l with
  | [] => [x]
  | y :: l' => if Qgtb (key y) (key x) then y :: insert_desc key x l' else x :: l
  end.

Fixpoint sorted_reverse {A : Type} (key : A -> Q) (l : list A) : list A :=
  match l with
  | [] => []
  | x :: l' => insert_desc key x (sorted_reverse key l')
  end.

(** ** utils/plate_detector.py *)

Definition point : Type := Z * Z.
Definition contour : Type := list point.

(** A bounding box [(x, y, w, h)]. *)
Definition box : Type := Z * Z * Z * Z.

(** [PlateDetector]: the cascade classifier loaded by [__init__] and the
    OpenCV functions the methods call. *)
Record PlateDetector (px : Type) : Type := {
  cvtColor_BGR2GRAY : ndarray px -> ndarray N;
  (** [plate_cascade.detectMultiScale(gray, scaleFactor, minNeighbors, minSize)] *)
  detectMultiScale : ndarray N -> Q -> Z -> Z * Z -> list box;
  bilateralFilter : ndarray N -> Z -> Z -> Z -> ndarray N;
  Canny : ndarray N -> Z -> Z -> ndarray N;
  (** [findContours(edged, RETR_TREE, CHAIN_APPROX_SIMPLE)], the contours only *)
  findContours : ndarray N -> list contour;
  contourArea : contour -> Q;
  arcLength : contour -> bool -> Q;
  approxPolyDP : contour -> Q -> bool -> contour;
  boundingRect : contour -> box
}.
Arguments cvtColor_BGR2GRAY {px} _ _.
Arguments detectMultiScale {px} _ _ _ _ _.
Arguments bilateralFilter {px} _ _ _ _ _.
Arguments Canny {px} _ _ _ _.
Arguments findContours {px} _ _.
Arguments contourArea {px} _ _.
Arguments arcLength {px} _ _ _.
Arguments approxPolyDP {px} _ _ _ _.
Arguments boundingRect {px} _ _.

(** The two detection methods, as entries of the call log. *)
Inductive detector : Type := Haarcascade | ContourMethod.

(** A computation together with the log of the detection methods it
    called, in call order. *)
Definition logged (A : Type) : Type := list detector * result A.

Definition ret {A : Type} (a : A) : logged A := ([], Return a).

Definition raise {A : Type} (e : exn) : logged A := ([], Raise e).

(** Entering detection method [d], whose body evaluates to [r]. *)
Definition called {A : Type} (d : detector) (r : result A) : logged A := ([d], r).

Definition lbind {A B : Type} (m : logged A) (k : A -> logged B) : logged B :=
  match m with
  | (log, Return a) => let '(log', r) := k a in (log ++ log', r)
  | (log, Raise e) => (log, Raise e)
  end.

Notation "x <- m ;; k" := (lbind m (fun x => k))
  (at level 61, m at next level, right associativity).

Section PlateDetectorMethods.
Context {px : Type}.

(** [detect_plates] *)
Definition detect_plates (self : PlateDetector px) (img : ndarray px)
  : logged (list box) :=
  called Haarcascade
    (let gray := cvtColor_BGR2GRAY self img in
     let plates := detectMultiScale self gray (rn64 (11 # 10)) 5 (25, 25) in
     Return (if 0 <? len plates then plates else [])).

(** The body of the loop of [detect_plates_contour_method], lines 84-96. *)
Definition contour_step (self : PlateDetector px) (plates : list box)
    (c : contour) : result (list box) :=
  let peri := arcLength self c true in
  let approx := approxPolyDP self c (fmul (rn64 (2 # 100)) peri) true in
  if len approx =? 4 then
    let '(x, y, w, h) := boundingRect self approx in
    bind (fdiv (float_of_int w) (float_of_int h)) (fun aspect_ratio =>
    if Qle_bool 2 aspect_ratio && Qle_bool aspect_ratio 5
    then Return (plates ++ [(x, y, w, h)])
    else Return plates)
  else Return plates.

(** The contours the loop visits, lines 69-81. *)
Definition largest_contours (self : PlateDetector px) (img : ndarray px)
  : list contour :=
  let gray := cvtColor_BGR2GRAY self img in
  let bilateral := bilateralFilter self gray 11 17 17 in
  let edged := Canny self bilateral 30 200 in
  let contours := findContours self edged in
  py_slice (sorted_reverse (contourArea self) contours) 0 10.

(** [detect_plates_contour_method] *)
Definition detect_plates_contour_method (self : PlateDetector px)
    (img : ndarray px) : logged (list box) :=
  called ContourMethod
    (let contours := largest_contours self img in
     for_each (contour_step self) contours []).

(** The sort key of line 121, [p[2] * p[3]]. *)
Definition area (p : box) : Q :=
  let '(_, _, w, h) := p in inject_Z (w * h).

(** [get_best_plate] *)
Definition get_best_plate (self : PlateDetector px) (img : ndarray px)
  : logged (option (ndarray px * box)) :=
  plates <- detect_plates self img ;;
  plates <- (if py_not plates
             then detect_plates_contour_method self img
             else ret plates) ;;
  if py_not plates then ret None
  else
    let plates := sorted_reverse area plates in
    match plates with
    | [] => raise IndexError
    | (x, y, w, h) :: _ =>
        let padding := 5 in
        let y1 := Z.max 0 (y - padding) in
        let y2 := Z.min (shape0 img) (y + h + padding) in
        let x1 := Z.max 0 (x - padding) in
        let x2 := Z.min (shape1 img) (x + w + padding) in
        let plate_img := slice2 img y1 y2 x1 x2 in
        ret (Some (plate_img, (x, y, w, h)))
    end.
End PlateDetectorMethods.

(** ** utils/image_handler.py *)

(** [try: body  except Exception as e: handler(e)].  Every exception of the
    model is an instance of [Exception]. *)
Definition try_except {A : Type} (body : result A) (handler : exn -> result A)
  : result A :=
  match body with
  | Return a => Return a
  | Raise e => handler e
  end.

(** [str(e)] *)
Definition exn_str (e : exn) : string :=
  match e with
  | ZeroDivisionError => "float division by zero"
  | IndexError => "list index out of range"
  | cv2_error msg => msg
  | Exception msg => msg
  end.

Definition SUPPORTED_FORMATS : list string :=
  ["image/jpeg"; "image/jpg"; "image/png"; "image/webp"]%string.

Definition MAX_FILE_SIZE : Z := 10 * 1024 * 1024.

(** [ImageHandler] has static methods only; the record holds the PIL and
    OpenCV functions they call, and the order in which this interpreter
    iterates over the set [SUPPORTED_FORMATS]. *)
Record ImageHandler (px pil_image : Type) : Type := {
  (** [Image.open(io.BytesIO(file_content))] *)
  Image_open : list Byte.byte -> result pil_image;
  (** [img.verify()] *)
  Image_verify : pil_image -> result unit;
  (** [cv2.resize(img, (new_width, new_height), interpolation=cv2.INTER_AREA)] *)
  cv2_resize : ndarray px -> Z * Z -> result (ndarray px);
  formats_in_set_order : list string
}.
Arguments Image_open {px pil_image} _ _.
Arguments Image_verify {px pil_image} _ _.
Arguments cv2_resize {px pil_image} _ _ _.
Arguments formats_in_set_order {px pil_image} _.

Section ImageHandlerMethods.
Context {px pil_image : Type}.

(** [validate_image] *)
Definition validate_image (lib : ImageHandler px pil_image)
    (file_content : list Byte.byte) (content_type : string)
  : result (bool * string) :=
  if MAX_FILE_SIZE <? len file_content then
    Return (false, "File size exceeds 10MB limit"%string)
  else if negb (existsb (String.eqb content_type) SUPPORTED_FORMATS) then
    Return (false,
            ("Unsupported format. Use: "
             ++ String.concat ", " (formats_in_set_order lib))%string)
  else
    try_except
      (bind (Image_open lib file_content) (fun img =>
       bind (Image_verify lib img) (fun _ =>
       Return (true, ""%string))))
      (fun e => Return (false, ("Invalid image file: " ++ exn_str e)%string)).

(** [resize_if_needed]; the default of [max_dimension] is 1920. *)
Definition resize_if_needed (lib : ImageHandler px pil_image)
    (img : ndarray px) (max_dimension : Z) : result (ndarray px) :=
  let height := shape0 img in
  let width := shape1 img in
  if max_dimension <? Z.max height width then
    bind (int_truediv max_dimension (Z.max height width)) (fun scale =>
    let new_width := int_of_float (fmul (float_of_int width) scale) in
    let new_height := int_of_float (fmul (float_of_int height) scale) in
    cv2_resize lib img (new_width, new_height))
  else Return img.
End ImageHandlerMethods.

(** ** utils/ocr_processor.py: the remaining methods *)

(** [sep.join(items)] *)
Fixpoint str_join (sep : str) (items : list str) : str :=
  match items with
  | [] => []
  | [x] => x
  | x :: rest => x ++ sep ++ str_join sep rest
  end.

(** [re.sub(r'\s+', '', s)]: every maximal run of whitespace is replaced by
    the empty string, so exactly the whitespace characters disappear.  For
    a [str] pattern the class [\s] is [Py_UNICODE_ISSPACE]. *)
Definition re_sub_spaces (s : str) : str :=
  filter (fun c => negb (isspace c)) s.

Section OCRProcessorOtherMethods.
Context {ndarray bbox : Type}.

(** [extract_all_text] *)
Definition extract_all_text (self : OCRProcessor ndarray bbox) (img : ndarray)
  : str :=
  let results := extract_text self img in
  let text_items := map (fun '(text, _) => text) results in
  str_join (str_of " ") text_items.
End OCRProcessorOtherMethods.

(** [format_plate_number], a static method; [toupper_full] is the
    interpreter's upper-case table above ASCII. *)
Definition format_plate_number (toupper_full : char -> list char)
    (plate_text : str) : str :=
  let clean := re_sub_spaces (upper toupper_full plate_text) in
  clean.

(** ** utils/image_handler.py: the remaining methods *)

(** The base64 digit of a 6-bit value: [A-Z], [a-z], [0-9], [+], [/]. *)
Definition b64_digit (n : N) : ascii :=
  (if n <? 26 then ascii_of_N (65 + n)
   else if n <? 52 then ascii_of_N (97 + (n - 26))
   else if n <? 62 then ascii_of_N (48 + (n - 52))
   else if n =? 62 then "+"%char
   else "/"%char)%N.

(** [base64.b64encode(b).decode('utf-8')]: three bytes give four digits;
    a last group of one or two bytes is padded with [=]. *)
Fixpoint b64encode (b : list Byte.byte) : string :=
  match b with
  | [] => EmptyString
  | [b0] =>
      let n0 := Byte.to_N b0 in
      String (b64_digit (n0 / 4))
        (String (b64_digit ((n0 mod 4) * 16)) "==")
  | [b0; b1] =>
      let n0 := Byte.to_N b0 in
      let n1 := Byte.to_N b1 in
      String (b64_digit (n0 / 4))
        (String (b64_digit ((n0 mod 4) * 16 + n1 / 16))
           (String (b64_digit ((n1 mod 16) * 4)) "="))
  | b0 :: b1 :: b2 :: rest =>
      let n0 := Byte.to_N b0 in
      let n1 := Byte.to_N b1 in
      let n2 := Byte.to_N b2 in
      String (b64_digit (n0 / 4))
        (String (b64_digit ((n0 mod 4) * 16 + n1 / 16))
           (String (b64_digit ((n1 mod 16) * 4 + n2 / 64))
              (String (b64_digit (n2 mod 64)) (b64encode rest))))
  end%N.

(** The OpenCV functions the remaining methods of [ImageHandler] and
    [PlateDetector.draw_plates] call.  Decoding, encoding and the filters
    raise [cv2.error] on input they reject; the drawing functions work in
    place on the array they are given and return it. *)
Record OpenCV (px : Type) : Type := {
  (** [cv2.imdecode(np.frombuffer(b, np.uint8), cv2.IMREAD_COLOR)]: [None]
      when the bytes are no image. *)
  imdecode : list Byte.byte -> result (option (ndarray px));
  (** [cv2.imencode('.jpg', img)], the buffer only *)
  imencode_jpg : ndarray px -> result (list Byte.byte);
  (** [cv2.cvtColor(img, cv2.COLOR_BGR2GRAY)] *)
  cvtColor_gray : ndarray px -> result (ndarray N);
  (** [cv2.bilateralFilter(gray, d, sigmaColor, sigmaSpace)] *)
  bilateral : ndarray N -> Z -> Z -> Z -> result (ndarray N);
  (** [cv2.adaptiveThreshold(src, maxValue, ADAPTIVE_THRESH_GAUSSIAN_C,
      THRESH_BINARY, blockSize, C)] *)
  adaptiveThreshold : ndarray N -> Z -> Z -> Z -> result (ndarray N);
  (** [cv2.rectangle(img, pt1, pt2, color, thickness)] *)
  rectangle : ndarray px -> Z * Z -> Z * Z -> Z * Z * Z -> Z -> ndarray px;
  (** [cv2.putText(img, text, org, FONT_HERSHEY_SIMPLEX, fontScale, color,
      thickness)] *)
  putText : ndarray px -> string -> Z * Z -> Q -> Z * Z * Z -> Z -> ndarray px
}.
Arguments imdecode {px} _ _.
Arguments imencode_jpg {px} _ _.
Arguments cvtColor_gray {px} _ _.
Arguments bilateral {px} _ _ _ _ _.
Arguments adaptiveThreshold {px} _ _ _ _ _.
Arguments rectangle {px} _ _ _ _ _ _.
Arguments putText {px} _ _ _ _ _ _ _.

Section OtherImageMethods.
Context {px : Type}.

(** [bytes_to_cv2] *)
Definition bytes_to_cv2 (cv2 : OpenCV px) (file_content : list Byte.byte)
  : result (option (ndarray px)) :=
  let img := imdecode cv2 file_content in
  img.

(** [cv2_to_base64] *)
Definition cv2_to_base64 (cv2 : OpenCV px) (img : ndarray px) : result string :=
  bind (imencode_jpg cv2 img) (fun buffer =>
  let img_base64 := b64encode buffer in
  Return ("data:image/jpeg;base64," ++ img_base64)%string).

(** [preprocess_for_ocr] *)
Definition preprocess_for_ocr (cv2 : OpenCV px) (img : ndarray px)
  : result (ndarray N) :=
  bind (cvtColor_gray cv2 img) (fun gray =>
  bind (bilateral cv2 gray 11 17 17) (fun bilateral =>
  bind (adaptiveThreshold cv2 bilateral 255 11 2) (fun thresh =>
  Return thresh))).

(** [draw_plates]; the drawing is done on a copy, so the result is a new
    value and [img] stays the caller's. *)
Definition draw_plates (cv2 : OpenCV px) (img : ndarray px) (plates : list box)
  : ndarray px :=
  let img_copy := img in
  fold_left
    (fun img_copy '(x, y, w, h) =>
       let img_copy :=
         rectangle cv2 img_copy (x, y) (x + w, y + h) (0, 255, 0) 3 in
       putText cv2 img_copy "License Plate" (x, y - 10)
         (rn64 (9 # 10)) (0, 255, 0) 2)
    plates img_copy.
End OtherImageMethods.

(** ** main.py: the upload endpoint *)

(** The uploaded file: what [await file.read()] returns, and
    [file.content_type]. *)
Record UploadFile : Type := {
  file_read : list Byte.byte;
  file_content_type : string
}.

(** The [content] of the JSON responses of [upload_image]; a key the
    response leaves out, or sets to [None], is [None]. *)
Record upload_content : Type := {
  success : bool;
  message : string;
  plate_text : option str;
  confidence : Q;
  original_image : string;
  plate_image : option string;
  bounding_box : option box
}.

(** What the endpoint gives back: a [JSONResponse], or the [HTTPException]
    it raises, which the framework turns into an error response. *)
Inductive response : Type :=
| JSONResponse (status_code : Z) (content : upload_content)
| HTTPException (status_code : Z) (detail : string).

(** The module-level objects [image_handler], [plate_detector] and
    [ocr_processor], with the libraries behind them. *)
Record App (px pil_image region : Type) : Type := {
  image_handler : ImageHandler px pil_image;
  cv2_lib : OpenCV px;
  plate_detector : PlateDetector px;
  ocr_processor : OCRProcessor (ndarray px) region
}.
Arguments image_handler {px pil_image region} _.
Arguments cv2_lib {px pil_image region} _.
Arguments plate_detector {px pil_image region} _.
Arguments ocr_processor {px pil_image region} _.

(** A computation that calls no detection method. *)
Definition lift {A : Type} (r : result A) : logged A := ([], r).

Section UploadEndpoint.
Context {px pil_image region : Type}.

(** The body of the [try] of [upload_image], lines 74-150.  A
    [raise HTTPException(...)] in it ends the body with that exception as
    the outcome: the first handler, [except HTTPException: raise], passes
    it on unchanged.  Any other exception is a [Raise]. *)
Definition upload_try (app : App px pil_image region) (file : UploadFile)
  : logged response :=
  let file_content := file_read file in
  v <- lift (validate_image (image_handler app) file_content
               (file_content_type file)) ;;
  let '(is_valid, error_msg) := v in
  if negb is_valid then ret (HTTPException 400 error_msg)
  else
    decoded <- lift (bytes_to_cv2 (cv2_lib app) file_content) ;;
    match decoded with
    | None => ret (HTTPException 400 "Failed to process image")
    | Some img =>
        img <- lift (resize_if_needed (image_handler app) img 1920) ;;
        plate_result <- get_best_plate (plate_detector app) img ;;
        match plate_result with
        | None =>
            original <- lift (cv2_to_base64 (cv2_lib app) img) ;;
            ret (JSONResponse 200 {|
                   success := false;
                   message := "No license plate detected in the image";
                   plate_text := None;
                   confidence := 0;
                   original_image := original;
                   plate_image := None;
                   bounding_box := None |})
        | Some (plate_img, bbox) =>
            let img_with_box := draw_plates (cv2_lib app) img [bbox] in
            plate_preprocessed <-
              lift (preprocess_for_ocr (cv2_lib app) plate_img) ;;
            let ocr_result :=
              extract_plate_number (ocr_processor app) plate_img in
            match ocr_result with
            | None =>
                original <- lift (cv2_to_base64 (cv2_lib app) img_with_box) ;;
                plate <- lift (cv2_to_base64 (cv2_lib app) plate_img) ;;
                ret (JSONResponse 200 {|
                       success := false;
                       message :=
                         "License plate detected but no text could be extracted";
                       plate_text := None;
                       confidence := 0;
                       original_image := original;
                       plate_image := Some plate;
                       bounding_box := None |})
            | Some (text, conf) =>
                original <- lift (cv2_to_base64 (cv2_lib app) img_with_box) ;;
                plate <- lift (cv2_to_base64 (cv2_lib app) plate_img) ;;
                ret (JSONResponse 200 {|
                       success := true;
                       message :=
                         "License plate successfully detected and extracted";
                       plate_text := Some text;
                       confidence := conf;
                       original_image := original;
                       plate_image := Some plate;
                       bounding_box := Some bbox |})
            end
        end
    end.

(** [upload_image]: the [try] with its second handler, which turns every
    other exception into status 500.  The result is the call log of the
    detection methods and the outcome. *)
Definition upload_image (app : App px pil_image region) (file : UploadFile)
  : list detector * response :=
  match upload_try app file with
  | (log, Return r) => (log, r)
  | (log, Raise e) =>
      (log,
       HTTPException 500
         ("Internal server error while processing image: " ++ exn_str e))
  end.
End UploadEndpoint.

(* ================================================================== *)
(** * Part II: the vocabulary of the statements *)
(* ================================================================== *)

(** [x] is the first item of [l] with the greatest key: it sits at some
    position, no key exceeds its own, and every earlier key is strictly
    smaller. *)
Definition first_max {A : Type} (key : A -> Q) (l : list A) (x : A) : Prop :=
  exists i : nat,
    nth_error l i = Some x /\
    (forall j y, nth_error l j = Some y -> (key y <= key x)%Q) /\
    (forall j y, (j < i)%nat -> nth_error l j = Some y -> (key y < key x)%Q).

(** Descending order of every pair, not only of neighbours. *)
Definition descending {A : Type} (key : A -> Q) : list A -> Prop :=
  StronglySorted (fun a b => (key b <= key a)%Q).

Section OCRProcessorVocabulary.
Context {ndarray bbox : Type}.
Variable self : OCRProcessor ndarray bbox.

(** A candidate survives the length filter of line 63. *)
Definition survives (item : str * Q) : bool :=
  (4 <=? len (cleaned_of self (fst item)))
  && (len (cleaned_of self (fst item)) <=? 10).

(** The surviving candidates in input order, each as its
    [(cleaned, confidence)] pair. *)
Definition survivors (results : list (str * Q)) : list (str * Q) :=
  map (fun item => (cleaned_of self (fst item), snd item))
      (filter survives results).
End OCRProcessorVocabulary.

(** The sample of [img] in row [r], column [c]. *)
Definition pixel_at {px : Type} (img : ndarray px) (r c : Z) : option px :=
  match nth_error img (Z.to_nat r) with
  | Some row => nth_error row (Z.to_nat c)
  | None => None
  end.

(** Every row has [shape[1]] samples. *)
Definition rectangular {px : Type} (img : ndarray px) : Prop :=
  Forall (fun row => len row = shape1 img) img.

(** [crop] is the window of [img] with rows [y1 .. y2-1] and columns
    [x1 .. x2-1]. *)
Definition window {px : Type} (img crop : ndarray px) (y1 y2 x1 x2 : Z) : Prop :=
  len crop = Z.max 0 (y2 - y1) /\
  Forall (fun row => len row = Z.max 0 (x2 - x1)) crop /\
  forall r c, 0 <= r < y2 - y1 -> 0 <= c < x2 - x1 ->
    pixel_at crop r c = pixel_at img (y1 + r) (x1 + c).

Section PlateDetectorVocabulary.
Context {px : Type}.
Variable self : PlateDetector px.
Variable img : ndarray px.

(** The boxes of whichever detection path ran: those of the classifier
    when it found any, those of the contour method otherwise. *)
Definition boxes_used : result (list box) :=
  match snd (detect_plates self img) with
  | Return [] => snd (detect_plates_contour_method self img)
  | r => r
  end.

(** Lines 121-133 on a non-empty list of boxes. *)
Definition crop_largest (plates : list box)
  : result (option (ndarray px * box)) :=
  match sorted_reverse area plates with
  | [] => Raise IndexError
  | (x, y, w, h) :: _ =>
      Return (Some (slice2 img (Z.max 0 (y - 5))
                      (Z.min (shape0 img) (y + h + 5))
                      (Z.max 0 (x - 5))
                      (Z.min (shape1 img) (x + w + 5)),
                    (x, y, w, h)))
  end.

(** The polygon approximation of a contour, lines 86-87. *)
Definition approx_of (c : contour) : contour :=
  approxPolyDP self c (fmul (rn64 (2 # 100)) (arcLength self c true)) true.

(** The bounding rectangle of the approximation, line 91. *)
Definition rect_of (c : contour) : box := boundingRect self (approx_of c).

(** All contours of the edge image, line 78. *)
Definition all_contours : list contour :=
  findContours self
    (Canny self (bilateralFilter self (cvtColor_BGR2GRAY self img) 11 17 17)
       30 200).

(** The tests of lines 90 and 95 on one contour. *)
Definition keeps (c : contour) : bool :=
  (len (approx_of c) =? 4) &&
  let '(_, _, w, h) := rect_of c in
  match fdiv (float_of_int w) (float_of_int h) with
  | Return aspect_ratio => Qle_bool 2 aspect_ratio && Qle_bool aspect_ratio 5
  | Raise _ => false
  end.
End PlateDetectorVocabulary.

Section ImageHandlerVocabulary.
Context {px pil_image : Type}.
Variable lib : ImageHandler px pil_image.

(** The decode check of lines 40-42: open the image, then verify it. *)
Definition decode_check (file_content : list Byte.byte) : result unit :=
  bind (Image_open lib file_content) (Image_verify lib).
End ImageHandlerVocabulary.

(** The number of characters in front of the [i]-th item of a joined
    string: the items before it, each followed by the separator. *)
Definition join_offset (sep : str) (items : list str) (i : nat) : Z :=
  fold_right (fun item acc => len item + len sep + acc) 0 (firstn i items).

(** A box that lies inside the image. *)
Definition box_inside {px : Type} (img : ndarray px) (b : box) : Prop :=
  let '(x, y, w, h) := b in
  0 <= x /\ 0 <= y /\ 0 <= w /\ 0 <= h /\
  x + w <= shape1 img /\ y + h <= shape0 img.

(** The characters of a base64 text: the 64 digits and the padding [=]. *)
Definition is_b64_char (a : ascii) : bool :=
  let c := N_of_ascii a in
  (((65 <=? c) && (c <=? 90)) || ((97 <=? c) && (c <=? 122))
   || ((48 <=? c) && (c <=? 57)) || (c =? 43) || (c =? 47) || (c =? 61))%N.

(** The 6-bit value of a base64 digit. *)
Definition b64_value (a : ascii) : N :=
  let c := N_of_ascii a in
  (if (65 <=? c) && (c <=? 90) then c - 65
   else if (97 <=? c) && (c <=? 122) then c - 71
   else if (48 <=? c) && (c <=? 57) then c + 4
   else if c =? 43 then 62
   else 63)%N.

(** The outcome of [upload_image] for an exception [e] that is not an
    [HTTPException], lines 154-159. *)
Definition internal_error (e : exn) : response :=
  HTTPException 500
    ("Internal server error while processing image: " ++ exn_str e).

(** Two computations end the same way as far as a caller that drops the
    returned value can tell: both return, or both raise the same
    exception. *)
Definition same_outcome {A B : Type} (r : result A) (r' : result B) : Prop :=
  match r, r' with
  | Return _, Return _ => True
  | Raise e, Raise e' => e = e'
  | _, _ => False
  end.

(** The application with other filters behind [preprocess_for_ocr]. *)
Definition with_filters {px pil_image region : Type}
    (app : App px pil_image region)
    (gray : ndarray px -> result (ndarray N))
    (smooth : ndarray N -> Z -> Z -> Z -> result (ndarray N))
    (threshold : ndarray N -> Z -> Z -> Z -> result (ndarray N))
  : App px pil_image region := {|
  image_handler := image_handler app;
  cv2_lib := {|
    imdecode := imdecode (cv2_lib app);
    imencode_jpg := imencode_jpg (cv2_lib app);
    cvtColor_gray := gray;
    bilateral := smooth;
    adaptiveThreshold := threshold;
    rectangle := rectangle (cv2_lib app);
    putText := putText (cv2_lib app)
  |};
  plate_detector := plate_detector app;
  ocr_processor := ocr_processor app
|}.

Section UploadVocabulary.
Context {px pil_image region : Type}.
Variable app : App px pil_image region.

(** The JSON contents of the three 200 responses. *)
Definition no_plate_content (original : string) : upload_content := {|
  success := false;
  message := "No license plate detected in the image";
  plate_text := None;
  confidence := 0;
  original_image := original;
  plate_image := None;
  bounding_box := None |}.

Definition no_text_content (original plate : string) : upload_content := {|
  success := false;
  message := "License plate detected but no text could be extracted";
  plate_text := None;
  confidence := 0;
  original_image := original;
  plate_image := Some plate;
  bounding_box := None |}.

Definition success_content (text : str) (conf : Q) (original plate : string)
    (bbox : box) : upload_content := {|
  success := true;
  message := "License plate successfully detected and extracted";
  plate_text := Some text;
  confidence := conf;
  original_image := original;
  plate_image := Some plate;
  bounding_box := Some bbox |}.

(** The outcome once a plate has been found, lines 108-150. *)
Definition plate_outcome (img plate_img : ndarray px) (bbox : box) : response :=
  match preprocess_for_ocr (cv2_lib app) plate_img with
  | Raise e => internal_error e
  | Return _ =>
      match cv2_to_base64 (cv2_lib app) (draw_plates (cv2_lib app) img [bbox]) with
      | Raise e => internal_error e
      | Return original =>
          match cv2_to_base64 (cv2_lib app) plate_img with
          | Raise e => internal_error e
          | Return plate =>
              match extract_plate_number (ocr_processor app) plate_img with
              | None => JSONResponse 200 (no_text_content original plate)
              | Some (text, conf) =>
                  JSONResponse 200 (success_content text conf original plate bbox)
              end
          end
      end
  end.

(** The outcome once the image has been decoded and resized, lines
    91-150. *)
Definition detection_outcome (img : ndarray px) : list detector * response :=
  let '(log, r) := get_best_plate (plate_detector app) img in
  (log,
   match r with
   | Raise e => internal_error e
   | Return None =>
       match cv2_to_base64 (cv2_lib app) img with
       | Raise e => internal_error e
       | Return original => JSONResponse 200 (no_plate_content original)
       end
   | Return (Some (plate_img, bbox)) => plate_outcome img plate_img bbox
   end).
End UploadVocabulary.

(** ** The vocabulary of the text clauses *)

(** The characters A to Z and 0 to 9. *)
Definition upper_or_digit (c : char) : Prop :=
  (65 <= c <= 90)%N \/ (48 <= c <= 57)%N.

(** [u] is the upper-case form of [s]: an ASCII letter a to z becomes the
    letter A to Z 32 code points below it, every other ASCII character
    stays, and a character above ASCII is replaced by what the
    interpreter's table gives for it. *)
Inductive upper_cased (toupper_full : char -> list char) : str -> str -> Prop :=
| upper_cased_nil :
    upper_cased toupper_full [] []
| upper_cased_letter c s u :
    (97 <= c <= 122)%N -> upper_cased toupper_full s u ->
    upper_cased toupper_full (c :: s) ((c - 32)%N :: u)
| upper_cased_ascii c s u :
    (c < 97 \/ 122 < c < 128)%N -> upper_cased toupper_full s u ->
    upper_cased toupper_full (c :: s) (c :: u)
| upper_cased_above c s u :
    (128 <= c)%N -> upper_cased toupper_full s u ->
    upper_cased toupper_full (c :: s) (toupper_full c ++ u).

(** [r] is [s] restricted to the characters with the property [P]: they
    are kept in their order and every other character is dropped. *)
Inductive restricted (P : char -> Prop) : str -> str -> Prop :=
| restricted_nil :
    restricted P [] []
| restricted_keep c s r :
    P c -> restricted P s r -> restricted P (c :: s) (c :: r)
| restricted_drop c s r :
    ~ P c -> restricted P s r -> restricted P (c :: s) r.

(** [cleaned] is the cleaned form of [text]: its upper-case form restricted
    to A-Z and 0-9. *)
Definition cleaned_form (toupper_full : char -> list char)
    (text cleaned : str) : Prop :=
  exists u, upper_cased toupper_full text u /\ restricted upper_or_digit u cleaned.

(** [core] is [s] trimmed: [s] without the white space in front of its
    first and behind its last character that is not white space, and the
    empty string when [s] has no such character. *)
Definition trimmed (s core : str) : Prop :=
  exists pre post,
    s = pre ++ core ++ post /\
    Forall (fun c => isspace c = true) pre /\
    Forall (fun c => isspace c = true) post /\
    (forall c rest, core = c :: rest -> isspace c = false) /\
    (forall c rest, core = rest ++ [c] -> isspace c = false).

(** ** The vocabulary of the box selection *)

(** [b] is the earliest box of [plates] of greatest width times height: no
    box of the list has a greater product, and every box in front of [b]
    has a smaller one. *)
Definition earliest_largest (plates : list box) (b : box) : Prop :=
  let '(_, _, w, h) := b in
  exists i : nat,
    nth_error plates i = Some b /\
    (forall j x' y' w' h',
       nth_error plates j = Some (x', y', w', h') -> w' * h' <= w * h) /\
    (forall j x' y' w' h',
       (j < i)%nat ->
       nth_error plates j = Some (x', y', w', h') -> w' * h' < w * h).


(* ================================================================== *)
(** * Part III: test data *)
(* ================================================================== *)

(** A reader that reports three text runs; two of them survive the filter
    with equal confidence. *)
Definition three_runs : OCRProcessor unit unit := {|
  readtext := fun _ =>
    [ (tt, str_of "x", 95 # 100);
      (tt, str_of "ka-01 ab", 9 # 10);
      (tt, str_of "MH 12 DE 1433", 9 # 10) ];
  toupper := fun c => [c]
|}.

(** A reader whose runs are all too short. *)
Definition short_runs : OCRProcessor unit unit := {|
  readtext := fun _ =>
    [ (tt, str_of "ab", 1 # 2);
      (tt, str_of "  x-y ", 8 # 10);
      (tt, str_of "q", 8 # 10) ];
  toupper := fun c => [c]
|}.

(** A reader that reports one run made of a single space. *)
Definition blank_run : OCRProcessor unit unit := {|
  readtext := fun _ => [ (tt, str_of " ", 1 # 2) ];
  toupper := fun c => [c]
|}.

(** The bounding rectangle of a non-empty set of points, as OpenCV reports
    it: both border columns and both border rows are inside. *)
Definition bounding_rect (c : contour) : box :=
  let xs := map fst c in
  let ys := map snd c in
  let x0 := fold_right Z.min (hd 0 xs) xs in
  let x1 := fold_right Z.max (hd 0 xs) xs in
  let y0 := fold_right Z.min (hd 0 ys) ys in
  let y1 := fold_right Z.max (hd 0 ys) ys in
  (x0, y0, x1 - x0 + 1, y1 - y0 + 1).

(** A detector on single-channel test images whose classifier reports
    [haar] and whose edge image has the contours [contours]; a contour is
    its own polygon approximation and its area is that of its bounding
    rectangle. *)
Definition synthetic (haar : list box) (contours : list contour)
  : PlateDetector N := {|
  cvtColor_BGR2GRAY := fun img => img;
  detectMultiScale := fun _ _ _ _ => haar;
  bilateralFilter := fun gray _ _ _ => gray;
  Canny := fun gray _ _ => gray;
  findContours := fun _ => contours;
  contourArea := fun c => area (bounding_rect c);
  arcLength := fun _ _ => 0%Q;
  approxPolyDP := fun c _ _ => c;
  boundingRect := bounding_rect
|}.

(** A black test image of 40 rows and 60 columns. *)
Definition black_40x60 : ndarray N := repeat (repeat 0%N 60) 40.

(** Three classifier boxes; the last two share the greatest area 400. *)
Definition three_boxes : list box :=
  [(10, 10, 20, 8); (2, 30, 40, 10); (30, 5, 25, 16)].

(** Four contours: a 30x10 quadrilateral, a 10x10 square, a triangle and a
    50x15 quadrilateral. *)
Definition four_contours : list contour :=
  [ [(0, 0); (29, 0); (29, 9); (0, 9)];
    [(5, 5); (14, 5); (14, 14); (5, 14)];
    [(1, 1); (20, 1); (10, 6)];
    [(0, 20); (49, 20); (49, 34); (0, 34)] ].

(** A library whose decoder accepts every non-empty blob and whose resize
    produces a black image of the requested size. *)
Definition test_lib : ImageHandler N (list Byte.byte) := {|
  Image_open := fun file_content =>
    match file_content with
    | [] => Raise (Exception "cannot identify image file")
    | _ :: _ => Return file_content
    end;
  Image_verify := fun _ => Return tt;
  cv2_resize := fun _ dsize =>
    let '(w, h) := dsize in
    if (0 <? w) && (0 <? h)
    then Return (repeat (repeat 0%N (Z.to_nat w)) (Z.to_nat h))
    else Raise (cv2_error "inv_scale_x > 0 in function 'resize'");
  formats_in_set_order := SUPPORTED_FORMATS
|}.

(** A black image of 3 rows and 3840 columns. *)
Definition black_3x3840 : ndarray N := repeat (repeat 0%N 3840) 3.

(** A blob of 10 MiB and one byte. *)
Definition oversized_blob : list Byte.byte :=
  repeat Byte.x00 (Z.to_nat (10 * 1024 * 1024 + 1)).

(** A black image of 2 rows and 2148 columns, and one of 1 row and 3840
    columns. *)
Definition black_2x2148 : ndarray N := repeat (repeat 0%N 2148) 2.
Definition black_1x3840 : ndarray N := repeat (repeat 0%N 3840) 1.

(** A stand-in for OpenCV on single-channel test images.  The decoder
    reads a height byte and two width bytes and gives a black image of
    that size; the encoder writes the same three bytes; the filters and
    the drawing functions leave the image as it is. *)
Definition test_cv2 : OpenCV N := {|
  imdecode := fun b =>
    match b with
    | [] => Raise (cv2_error "!buf.empty() in function 'imdecode_'")
    | h :: w1 :: w0 :: _ =>
        Return (Some (repeat
                        (repeat 0%N
                           (N.to_nat (Byte.to_N w1 * 256 + Byte.to_N w0)%N))
                        (N.to_nat (Byte.to_N h))))
    | _ => Return None
    end;
  imencode_jpg := fun img =>
    match img with
    | [] => Raise (cv2_error "!image.empty() in function 'imencode'")
    | row :: _ =>
        let w := N.of_nat (length row) in
        let h := N.of_nat (length img) in
        Return (map (fun n => match Byte.of_N (n mod 256) with
                              | Some b => b
                              | None => Byte.x00
                              end) [h; w / 256; w]%N)
    end;
  cvtColor_gray := fun img => Return img;
  bilateral := fun gray _ _ _ => Return gray;
  adaptiveThreshold := fun gray _ _ _ => Return gray;
  rectangle := fun img _ _ _ _ => img;
  putText := fun img _ _ _ _ _ => img
|}.

(** A reader that finds one text run on every image. *)
Definition one_run : OCRProcessor (ndarray N) unit := {|
  readtext := fun _ => [ (tt, str_of "ka-01 ab", 9 # 10) ];
  toupper := fun c => [c]
|}.

(** The application on the test libraries, with the three classifier
    boxes. *)
Definition test_app : App N (list Byte.byte) unit := {|
  image_handler := test_lib;
  cv2_lib := test_cv2;
  plate_detector := synthetic three_boxes [];
  ocr_processor := one_run
|}.

(** An upload that decodes to 40 rows of 60 columns, and one that decodes
    to a single row of 3840 columns. *)
Definition upload_40x60 : UploadFile := {|
  file_read := [Byte.x28; Byte.x00; Byte.x3c];
  file_content_type := "image/png"
|}.

Definition upload_1x3840 : UploadFile := {|
  file_read := [Byte.x01; Byte.x0f; Byte.x00];
  file_content_type := "image/jpeg"
|}.

(* ================================================================== *)
(** * Part IV: properties *)
(* ================================================================== *)

(** ** The running maximum *)

Lemma Qgtb_true (a b : Q) : Qgtb a b = true <-> (b < a)%Q.
Proof.
  unfold Qgtb. rewrite negb_true_iff.
  split; intros H.
  - apply Qnot_le_lt. intros Hle. apply Qle_bool_iff in Hle. congruence.
  - destruct (Qle_bool a b) eqn:E; [|reflexivity].
    apply Qle_bool_iff in E. exfalso. apply (Qlt_not_le _ _ H E).
Qed.

Lemma Qgtb_false (a b : Q) : Qgtb a b = false <-> (a <= b)%Q.
Proof.
  unfold Qgtb. rewrite negb_false_iff. apply Qle_bool_iff.
Qed.

Lemma max_from_first_max {A : Type} (key : A -> Q) (l pre : list A) (best : A) :
  first_max key pre best ->
  first_max key (pre ++ l) (max_from key best l).
Proof.
  revert pre best. induction l as [|x l IH]; intros pre best Hb; simpl.
  - now rewrite app_nil_r.
  - replace (pre ++ x :: l) with ((pre ++ [x]) ++ l)
      by (rewrite <- app_assoc; reflexivity).
    apply IH. destruct Hb as (i & Hi & Hle & Hlt).
    assert (Hlen : (i < length pre)%nat)
      by (apply nth_error_Some; congruence).
    destruct (Qgtb (key x) (key best)) eqn:E.
    + apply Qgtb_true in E.
      exists (length pre). split; [|split].
      * rewrite nth_error_app2 by lia. now rewrite Nat.sub_diag.
      * intros j y Hj.
        destruct (Nat.lt_ge_cases j (length pre)) as [Hlt'|Hge].
        -- rewrite nth_error_app1 in Hj by exact Hlt'.
           apply Qlt_le_weak. eapply Qle_lt_trans; [apply (Hle j y Hj)|exact E].
        -- rewrite nth_error_app2 in Hj by exact Hge.
           destruct (j - length pre)%nat as [|k]; simpl in Hj.
           ++ injection Hj as <-. apply Qle_refl.
           ++ destruct k; discriminate.
      * intros j y Hj Hy. rewrite nth_error_app1 in Hy by exact Hj.
        eapply Qle_lt_trans; [apply (Hle j y Hy)|exact E].
    + apply Qgtb_false in E.
      exists i. split; [|split].
      * now rewrite nth_error_app1 by exact Hlen.
      * intros j y Hj.
        destruct (Nat.lt_ge_cases j (length pre)) as [Hlt'|Hge].
        -- rewrite nth_error_app1 in Hj by exact Hlt'. exact (Hle j y Hj).
        -- rewrite nth_error_app2 in Hj by exact Hge.
           destruct (j - length pre)%nat as [|k]; simpl in Hj.
           ++ injection Hj as <-. exact E.
           ++ destruct k; discriminate.
      * intros j y Hj Hy. rewrite nth_error_app1 in Hy by lia.
        exact (Hlt j y Hj Hy).
Qed.

Lemma max_from_is_first_max {A : Type} (key : A -> Q) (x : A) (l : list A) :
  first_max key (x :: l) (max_from key x l).
Proof.
  apply (max_from_first_max key l [x] x).
  exists 0%nat. split; [reflexivity|split].
  - intros [|[|j]] y Hj; simpl in Hj; try discriminate.
    injection Hj as <-. apply Qle_refl.
  - intros j y Hj. lia.
Qed.

Lemma first_max_unique {A : Type} (key : A -> Q) (l : list A) (x y : A) :
  first_max key l x -> first_max key l y -> x = y.
Proof.
  intros (i & Hi & Hle & Hlt) (k & Hk & Hle' & Hlt').
  destruct (Nat.lt_trichotomy i k) as [H|[H|H]].
  - exfalso. apply (Qlt_not_le _ _ (Hlt' i x H Hi)). apply (Hle k y Hk).
  - subst k. congruence.
  - exfalso. apply (Qlt_not_le _ _ (Hlt k y H Hk)). apply (Hle' i x Hi).
Qed.

(** ** Trimming and upper-casing *)

Lemma len_nonneg {A : Type} (l : list A) : 0 <= len l.
Proof. unfold len. lia. Qed.

Lemma len_pos_iff {A : Type} (l : list A) : 1 <= len l <-> l <> [].
Proof.
  unfold len. destruct l; simpl; split; intros H; try lia; congruence.
Qed.

Lemma lstrip_nil_iff (s : str) :
  lstrip s = [] <-> Forall (fun c => isspace c = true) s.
Proof.
  induction s as [|c s IH]; simpl.
  - split; auto.
  - destruct (isspace c) eqn:E.
    + rewrite IH. split; intros H.
      * constructor; assumption.
      * now inversion H.
    + split; intros H; [discriminate|].
      inversion H; congruence.
Qed.

Lemma lstrip_head (s : str) (c : char) (s' : str) :
  lstrip s = c :: s' -> isspace c = false.
Proof.
  induction s as [|d s IH]; simpl; [discriminate|].
  destruct (isspace d) eqn:E; [exact IH|].
  intros H. injection H as <- _. exact E.
Qed.

Lemma rstrip_nil_iff (s : str) :
  rstrip s = [] <-> Forall (fun c => isspace c = true) s.
Proof.
  unfold rstrip. split; intros H.
  - assert (H' : lstrip (rev s) = []).
    { apply (f_equal (@rev char)) in H. now rewrite rev_involutive in H. }
    apply lstrip_nil_iff in H'. apply Forall_rev in H'.
    now rewrite rev_involutive in H'.
  - apply Forall_rev in H. apply lstrip_nil_iff in H. now rewrite H.
Qed.

Lemma strip_nil_iff (s : str) :
  strip s = [] <-> Forall (fun c => isspace c = true) s.
Proof.
  unfold strip. rewrite rstrip_nil_iff. split; intros H.
  - destruct (lstrip s) as [|c s'] eqn:E.
    + now apply lstrip_nil_iff.
    + apply lstrip_head in E. inversion H; congruence.
  - apply lstrip_nil_iff in H. rewrite H. constructor.
Qed.

Lemma upper_char_nonempty (up : char -> list char) (c : char) :
  (forall d, up d <> []) -> upper_char up c <> [].
Proof.
  intros Hup. unfold upper_char.
  destruct (c <? 128)%N; [|apply Hup].
  destruct ((97 <=? c) && (c <=? 122))%N; discriminate.
Qed.

Lemma upper_nil_iff (up : char -> list char) (s : str) :
  (forall d, up d <> []) -> upper up s = [] <-> s = [].
Proof.
  intros Hup. destruct s as [|c s]; simpl; [tauto|].
  split; [|discriminate].
  intros H. apply app_eq_nil in H. destruct H as [H _].
  now apply upper_char_nonempty in H.
Qed.

(** ** OCRProcessor.extract_plate_number *)

Section OCRProcessorFacts.
Context {ndarray bbox : Type}.
Variable self : OCRProcessor ndarray bbox.

Lemma fold_clean_step (results acc : list (str * Q)) :
  fold_left (clean_step self) results acc = acc ++ survivors self results.
Proof.
  revert acc. induction results as [|[text conf] l IH]; intros acc.
  - simpl. now rewrite app_nil_r.
  - simpl fold_left. rewrite IH. unfold survivors, clean_step. simpl filter.
    unfold survives at 2. simpl fst.
    destruct ((4 <=? len (cleaned_of self text))
              && (len (cleaned_of self text) <=? 10)).
    + simpl. now rewrite <- app_assoc.
    + reflexivity.
Qed.

Lemma survivors_nil_iff (results : list (str * Q)) :
  survivors self results = [] <->
  Forall (fun item => survives self item = false) results.
Proof.
  unfold survivors. induction results as [|x l IH]; simpl.
  - split; auto.
  - destruct (survives self x) eqn:E; simpl.
    + split; [discriminate|]. intros H. inversion H; congruence.
    + rewrite IH. split; intros H.
      * constructor; assumption.
      * now inversion H.
Qed.

Lemma survivors_length_ok (results : list (str * Q)) (t : str) (c : Q) :
  In (t, c) (survivors self results) -> 4 <= len t <= 10.
Proof.
  unfold survivors. rewrite in_map_iff.
  intros ([raw c'] & Heq & Hin). apply filter_In in Hin.
  destruct Hin as [_ Hs]. injection Heq as <- _.
  unfold survives in Hs. simpl in Hs. apply andb_true_iff in Hs. lia.
Qed.

Lemma survives_false_iff (item : str * Q) :
  survives self item = false <->
  len (cleaned_of self (fst item)) < 4 \/ 10 < len (cleaned_of self (fst item)).
Proof.
  unfold survives. rewrite andb_false_iff, Z.leb_gt, Z.leb_gt. tauto.
Qed.

Lemma survives_true_iff (item : str * Q) :
  survives self item = true <-> 4 <= len (cleaned_of self (fst item)) <= 10.
Proof.
  unfold survives. rewrite andb_true_iff, Z.leb_le, Z.leb_le. tauto.
Qed.

(** The two exits of the method, in terms of [survivors]. *)
Lemma extract_plate_number_cases (img : ndarray) :
  let results := extract_text self img in
  match results, survivors self results with
  | [], _ => extract_plate_number self img = None
  | r :: rest, [] =>
      extract_plate_number self img =
      Some (upper (toupper self) (strip (fst (max_from snd r rest))),
            snd (max_from snd r rest))
  | _ :: _, s :: srest =>
      extract_plate_number self img = Some (max_from snd s srest)
  end.
Proof.
  unfold extract_plate_number. cbv zeta.
  rewrite fold_clean_step. change ([] ++ ?l) with l.
  destruct (extract_text self img) as [|r rest]; [reflexivity|].
  change (py_not (r :: rest)) with false. cbv iota.
  destruct (survivors self (r :: rest)) as [|s srest].
  - change (py_not (@nil (str * Q))) with true. cbv iota.
    now destruct (max_from snd r rest).
  - reflexivity.
Qed.
End OCRProcessorFacts.

Lemma not_all_space_iff (s : str) :
  ~ Forall (fun c => isspace c = true) s <->
  Exists (fun c => isspace c = false) s.
Proof.
  induction s as [|c s IH].
  - split; intros H; [exfalso; apply H; constructor | inversion H].
  - split; intros H.
    + destruct (isspace c) eqn:E.
      * apply Exists_cons_tl, IH. intros Hs. apply H. now constructor.
      * now apply Exists_cons_hd.
    + intros Hall. inversion Hall as [|? ? Hc Hs]; subst.
      inversion H as [? ? Hc'|? ? Hs']; subst; [congruence|].
      now apply IH in Hs'.
Qed.

(** ** The text vocabulary and the string operations of the code *)

Lemma upper_char_cases (up : char -> list char) (c : char) :
  ((97 <= c <= 122)%N /\ upper_char up c = [(c - 32)%N]) \/
  ((c < 97 \/ 122 < c < 128)%N /\ upper_char up c = [c]) \/
  ((128 <= c)%N /\ upper_char up c = up c).
Proof.
  unfold upper_char.
  destruct (N.ltb_spec c 128); [|right; right; split; [lia|reflexivity]].
  destruct (N.leb_spec 97 c); destruct (N.leb_spec c 122); cbn [andb];
    [left|right; left..]; (split; [lia|reflexivity]).
Qed.

(** [upper_cased] describes [s.upper()] and nothing else. *)
Lemma upper_cased_iff (up : char -> list char) (s u : str) :
  upper_cased up s u <-> u = upper up s.
Proof.
  split.
  - induction 1 as [|c s u Hc _ IH|c s u Hc _ IH|c s u Hc _ IH];
      [reflexivity|..]; subst u; unfold upper; cbn [flat_map];
      destruct (upper_char_cases up c) as [[H1 ->]|[[H1 ->]|[H1 ->]]];
      try reflexivity; lia.
  - intros ->. induction s as [|c s IH]; [constructor|].
    unfold upper. cbn [flat_map].
    change (flat_map (upper_char up) s) with (upper up s).
    destruct (upper_char_cases up c) as [[H1 ->]|[[H1 ->]|[H1 ->]]];
      now constructor.
Qed.

Lemma in_AZ09_iff (c : char) : in_AZ09 c = true <-> upper_or_digit c.
Proof.
  unfold in_AZ09, upper_or_digit.
  rewrite orb_true_iff, !andb_true_iff, !N.leb_le. reflexivity.
Qed.

(** [restricted upper_or_digit] describes the substitution of line 60. *)
Lemma restricted_iff (s r : str) :
  restricted upper_or_digit s r <-> r = re_sub_not_AZ09 s.
Proof.
  unfold re_sub_not_AZ09. split.
  - induction 1 as [|c s r Hc _ IH|c s r Hc _ IH]; [reflexivity|..];
      subst r; cbn [filter]; destruct (in_AZ09 c) eqn:E; try reflexivity.
    + apply in_AZ09_iff in Hc. congruence.
    + apply in_AZ09_iff in E. contradiction.
  - intros ->. induction s as [|c s IH]; [constructor|].
    cbn [filter]. destruct (in_AZ09 c) eqn:E.
    + apply restricted_keep; [now apply in_AZ09_iff|exact IH].
    + apply restricted_drop; [|exact IH].
      intros Hc. apply in_AZ09_iff in Hc. congruence.
Qed.

Lemma lstrip_split (s : str) :
  exists pre, s = pre ++ lstrip s /\ Forall (fun c => isspace c = true) pre.
Proof.
  induction s as [|c s (pre & Heq & Hpre)]; [now exists []|].
  simpl. destruct (isspace c) eqn:E.
  - exists (c :: pre). split; [simpl; now rewrite <- Heq|now constructor].
  - now exists [].
Qed.

Lemma rstrip_split (s : str) :
  exists post, s = rstrip s ++ post /\ Forall (fun c => isspace c = true) post.
Proof.
  destruct (lstrip_split (rev s)) as (pre & Heq & Hpre).
  exists (rev pre). split; [|now apply Forall_rev].
  unfold rstrip. rewrite <- rev_app_distr, <- Heq. now rewrite rev_involutive.
Qed.

Lemma rstrip_last (s rest : str) (c : char) :
  rstrip s = rest ++ [c] -> isspace c = false.
Proof.
  unfold rstrip. intros H. apply (f_equal (@rev char)) in H.
  rewrite rev_involutive, rev_app_distr in H. simpl in H.
  exact (lstrip_head _ _ _ H).
Qed.

Lemma lstrip_spaces (pre s : str) :
  Forall (fun c => isspace c = true) pre -> lstrip (pre ++ s) = lstrip s.
Proof.
  induction 1 as [|c pre Hc _ IH]; [reflexivity|]. simpl. now rewrite Hc.
Qed.

(** [strip] trims. *)
Lemma strip_trimmed (s : str) : trimmed s (strip s).
Proof.
  destruct (lstrip_split s) as (pre & Hpre & Hspre).
  destruct (rstrip_split (lstrip s)) as (post & Hpost & Hspost).
  exists pre, post. unfold strip. rewrite <- Hpost.
  split; [exact Hpre|]. split; [exact Hspre|]. split; [exact Hspost|]. split.
  - intros c rest Hc. rewrite Hc in Hpost. simpl in Hpost.
    exact (lstrip_head _ _ _ Hpost).
  - intros c rest Hc. exact (rstrip_last _ _ _ Hc).
Qed.

(** Trimming has one result. *)
Lemma trimmed_strip (s core : str) : trimmed s core -> core = strip s.
Proof.
  intros (pre & post & -> & Hpre & Hpost & Hhd & Hlast).
  unfold strip. rewrite (lstrip_spaces _ _ Hpre).
  destruct core as [|c rest].
  - simpl. symmetry.
    assert (H : lstrip post = []) by now apply lstrip_nil_iff.
    rewrite H. apply rstrip_nil_iff. constructor.
  - assert (Hc : isspace c = false) by exact (Hhd c rest eq_refl).
    simpl. rewrite Hc. unfold rstrip.
    change (c :: rest ++ post) with ((c :: rest) ++ post).
    rewrite rev_app_distr, lstrip_spaces by now apply Forall_rev.
    destruct (rev (c :: rest)) as [|d t] eqn:Er.
    + apply (f_equal (@rev char)) in Er. rewrite rev_involutive in Er.
      discriminate.
    + assert (Hd : isspace d = false).
      { apply (Hlast d (rev t)). apply (f_equal (@rev char)) in Er.
        now rewrite rev_involutive in Er. }
      simpl lstrip. rewrite Hd. rewrite <- Er. now rewrite rev_involutive.
Qed.

(** A position in the list of mapped survivors of a filter comes from a
    position of the input, and the items in front keep their order. *)
Lemma filter_map_nth {A B : Type} (p : A -> bool) (f : A -> B)
    (l : list A) (k : nat) (y : B) :
  nth_error (map f (filter p l)) k = Some y ->
  exists i x,
    nth_error l i = Some x /\ p x = true /\ f x = y /\
    forall j x', (j < i)%nat -> nth_error l j = Some x' -> p x' = true ->
      exists k', (k' < k)%nat /\
                 nth_error (map f (filter p l)) k' = Some (f x').
Proof.
  revert k. induction l as [|a l IH]; intros k Hk.
  - destruct k; discriminate.
  - cbn [filter] in *. destruct (p a) eqn:Ea.
    + destruct k as [|k]; cbn [map nth_error] in Hk.
      * injection Hk as <-. exists 0%nat, a.
        repeat split; auto. intros j x' Hj. lia.
      * destruct (IH k Hk) as (i & x & Hi & Hx & Hy & Hbefore).
        exists (S i), x. repeat split; auto.
        intros [|j] x' Hj Hx' Hp; cbn [nth_error] in Hx'.
        -- injection Hx' as <-. exists 0%nat. split; [lia|reflexivity].
        -- destruct (Hbefore j x') as (k' & Hk' & Hnth); [lia|auto..].
           exists (S k'). split; [lia|exact Hnth].
    + destruct (IH k Hk) as (i & x & Hi & Hx & Hy & Hbefore).
      exists (S i), x. repeat split; auto.
      intros [|j] x' Hj Hx' Hp; cbn [nth_error] in Hx'.
      * injection Hx' as <-. congruence.
      * apply (Hbefore j x'); [lia|auto..].
Qed.

Lemma filter_map_position {A B : Type} (p : A -> bool) (f : A -> B)
    (l : list A) (j : nat) (x : A) :
  nth_error l j = Some x -> p x = true ->
  exists k, nth_error (map f (filter p l)) k = Some (f x).
Proof.
  intros Hj Hp. apply In_nth_error, in_map, filter_In.
  split; [exact (nth_error_In _ _ Hj)|exact Hp].
Qed.

Section OCRProcessorClaims.
Context {ndarray bbox : Type}.
Variable self : OCRProcessor ndarray bbox.
Variable img : ndarray.

Lemma exists_survivor (results : list (str * Q)) :
  Exists (fun item => survives self item = true) results ->
  survivors self results <> [].
Proof.
  intros H Hnil. apply survivors_nil_iff in Hnil.
  apply Exists_exists in H. destruct H as (x & Hin & Hx).
  rewrite Forall_forall in Hnil. specialize (Hnil x Hin). congruence.
Qed.

(** C1 (amended).  [extract_plate_number] returns [None] exactly when the
    recognition engine returned no candidate, and a result for every
    non-empty candidate list.  The returned string has between 4 and 10
    characters when some candidate survives the length filter; on the
    fallback path it is non-empty exactly when the raw text of the
    maximum-confidence candidate has a non-whitespace character. *)
Theorem extract_plate_number_result_length :
  (forall d, toupper self d <> []) ->
  let results := extract_text self img in
  (extract_plate_number self img = None <-> results = []) /\
  (results <> [] ->
   exists t c, extract_plate_number self img = Some (t, c) /\
     (Exists (fun item => survives self item = true) results ->
      4 <= len t <= 10) /\
     (Forall (fun item => survives self item = false) results ->
      forall raw conf, first_max snd results (raw, conf) ->
        (1 <= len t <-> Exists (fun ch => isspace ch = false) raw))).
Proof.
  intros Hup results. subst results.
  pose proof (extract_plate_number_cases self img) as Hc. cbv zeta in Hc.
  destruct (extract_text self img) as [|r rest] eqn:E.
  - split; [tauto|congruence].
  - destruct (survivors self (r :: rest)) as [|s srest] eqn:Es.
    + split; [rewrite Hc; split; discriminate|]. intros _.
      eexists _, _. split; [exact Hc|]. split.
      * intros Hex. now apply exists_survivor in Hex.
      * intros _ raw conf Hmax.
        pose proof (max_from_is_first_max snd r rest) as Hm.
        pose proof (first_max_unique _ _ _ _ Hm Hmax) as Heq.
        rewrite Heq. simpl fst.
        rewrite len_pos_iff, <- not_all_space_iff.
        rewrite (upper_nil_iff _ _ Hup), strip_nil_iff. tauto.
    + split; [rewrite Hc; split; discriminate|]. intros _.
      destruct (max_from snd s srest) as [t c] eqn:Em.
      exists t, c. split; [exact Hc|]. split.
      * intros _. apply (survivors_length_ok self (r :: rest) t c).
        rewrite Es, <- Em.
        destruct (max_from_is_first_max snd s srest) as (i & Hi & _).
        now apply nth_error_In in Hi.
      * intros Hall. apply survivors_nil_iff in Hall. congruence.
Qed.

(** [cleaned_form] describes line 60. *)
Lemma cleaned_form_iff (text cleaned : str) :
  cleaned_form (toupper self) text cleaned <-> cleaned = cleaned_of self text.
Proof.
  unfold cleaned_form, cleaned_of. split.
  - intros (u & Hu & Hr). apply upper_cased_iff in Hu. subst u.
    now apply restricted_iff.
  - intros ->. exists (upper (toupper self) text).
    split; [now apply upper_cased_iff|now apply restricted_iff].
Qed.

(** C2.  When every candidate of a non-empty list has a cleaned text (its
    upper-case form restricted to A-Z and 0-9) of fewer than 4 or more than
    10 characters, the result is made from the first maximum-confidence
    candidate of the whole list: its confidence, and the upper-case form of
    its raw text trimmed of leading and trailing white space, not the
    cleaned form. *)
Theorem extract_plate_number_fallback :
  let results := extract_text self img in
  results <> [] ->
  Forall (fun item =>
            forall cleaned,
              cleaned_form (toupper self) (fst item) cleaned ->
              len cleaned < 4 \/ 10 < len cleaned) results ->
  exists text conf core t,
    first_max snd results (text, conf) /\
    trimmed text core /\
    upper_cased (toupper self) core t /\
    extract_plate_number self img = Some (t, conf).
Proof.
  intros results Hne Hall. subst results.
  pose proof (extract_plate_number_cases self img) as Hc. cbv zeta in Hc.
  destruct (extract_text self img) as [|r rest] eqn:E; [congruence|].
  assert (Hs : survivors self (r :: rest) = []).
  { apply survivors_nil_iff. eapply Forall_impl; [|exact Hall].
    intros a Ha. apply survives_false_iff. apply Ha.
    now apply cleaned_form_iff. }
  rewrite Hs in Hc.
  pose proof (max_from_is_first_max snd r rest) as Hm.
  destruct (max_from snd r rest) as [text conf].
  exists text, conf, (strip text), (upper (toupper self) (strip text)).
  split; [exact Hm|]. split; [apply strip_trimmed|].
  split; [now apply upper_cased_iff|exact Hc].
Qed.

(** C3.  When some candidate has a cleaned text (its upper-case form
    restricted to A-Z and 0-9) of 4 to 10 characters, the result is the
    cleaned text and the confidence of one such candidate: no candidate
    with a cleaned text of 4 to 10 characters has a greater confidence, and
    every such candidate in front of it in the input has a smaller one. *)
Theorem extract_plate_number_best_survivor :
  let results := extract_text self img in
  Exists (fun item =>
            exists cleaned,
              cleaned_form (toupper self) (fst item) cleaned /\
              4 <= len cleaned <= 10) results ->
  exists i text conf cleaned,
    nth_error results i = Some (text, conf) /\
    cleaned_form (toupper self) text cleaned /\
    4 <= len cleaned <= 10 /\
    extract_plate_number self img = Some (cleaned, conf) /\
    (forall j text' conf' cleaned',
       nth_error results j = Some (text', conf') ->
       cleaned_form (toupper self) text' cleaned' ->
       4 <= len cleaned' <= 10 ->
       (conf' <= conf)%Q /\ ((j < i)%nat -> (conf' < conf)%Q)).
Proof.
  intros results Hex. subst results.
  pose proof (extract_plate_number_cases self img) as Hc. cbv zeta in Hc.
  assert (Hs : survivors self (extract_text self img) <> []).
  { apply exists_survivor. eapply Exists_impl; [|exact Hex].
    intros a (cleaned & Hcl & Hlen). apply survives_true_iff.
    apply cleaned_form_iff in Hcl. now subst cleaned. }
  destruct (extract_text self img) as [|r rest] eqn:E; [inversion Hex|].
  destruct (survivors self (r :: rest)) as [|s srest] eqn:Es; [congruence|].
  destruct (max_from_is_first_max snd s srest) as (k & Hk & Hle & Hlt).
  rewrite <- Es in Hk, Hle, Hlt. unfold survivors in Hk, Hle, Hlt.
  destruct (filter_map_nth _ _ _ _ _ Hk)
    as (i & [text conf] & Hi & Hsurv & Hbest & Hbefore).
  cbn [fst snd] in Hbest. rewrite <- Hbest in Hc, Hle, Hlt. cbn [snd] in Hle, Hlt.
  exists i, text, conf, (cleaned_of self text).
  split; [exact Hi|]. split; [now apply cleaned_form_iff|].
  split; [exact (proj1 (survives_true_iff self (text, conf)) Hsurv)|].
  split; [exact Hc|].
  intros j text' conf' cleaned' Hj Hcl Hlen.
  apply cleaned_form_iff in Hcl. subst cleaned'.
  assert (Hsurv' : survives self (text', conf') = true)
    by now apply survives_true_iff.
  split.
  - destruct (filter_map_position (survives self)
                (fun item => (cleaned_of self (fst item), snd item))
                _ _ _ Hj Hsurv') as (k' & Hk').
    exact (Hle k' _ Hk').
  - intros Hji. destruct (Hbefore j _ Hji Hj Hsurv') as (k' & Hkk & Hk').
    exact (Hlt k' _ Hkk Hk').
Qed.
End OCRProcessorClaims.

(** *** Concrete runs of [extract_plate_number] *)

Example extract_plate_number_three_runs :
  extract_plate_number three_runs tt = Some (str_of "KA01AB", 9 # 10).
Proof. reflexivity. Qed.

Example extract_plate_number_short_runs :
  extract_plate_number short_runs tt = Some (str_of "X-Y", 8 # 10).
Proof. reflexivity. Qed.

Lemma extract_plate_number_result_length_witness :
  (extract_plate_number short_runs tt = None <->
   extract_text short_runs tt = []) /\
  (extract_text short_runs tt <> [] ->
   exists t c, extract_plate_number short_runs tt = Some (t, c) /\
     (Exists (fun item => survives short_runs item = true)
             (extract_text short_runs tt) -> 4 <= len t <= 10) /\
     (Forall (fun item => survives short_runs item = false)
             (extract_text short_runs tt) ->
      forall raw conf, first_max snd (extract_text short_runs tt) (raw, conf) ->
        (1 <= len t <-> Exists (fun ch => isspace ch = false) raw))).
Proof.
  apply (extract_plate_number_result_length short_runs tt).
  intros d. simpl. discriminate.
Defined.

(** C1 as stated fails: a single run holding one space is a non-empty
    candidate list, and the result is the empty string. *)
Lemma extract_plate_number_blank_run :
  extract_text blank_run tt = [([32%N], 1 # 2)] /\
  extract_plate_number blank_run tt = Some ([], 1 # 2) /\
  ~ (1 <= len (@nil char)).
Proof.
  split; [reflexivity|]. split; [reflexivity|]. unfold len. simpl. lia.
Qed.

Lemma extract_plate_number_fallback_witness :
  exists text conf core t,
    first_max snd (extract_text short_runs tt) (text, conf) /\
    trimmed text core /\
    upper_cased (toupper short_runs) core t /\
    extract_plate_number short_runs tt = Some (t, conf).
Proof.
  apply (extract_plate_number_fallback short_runs tt).
  - discriminate.
  - repeat first [apply Forall_cons | apply Forall_nil];
      intros cleaned H; apply (cleaned_form_iff short_runs) in H;
      subst cleaned; vm_compute; left; reflexivity.
Defined.

Lemma extract_plate_number_best_survivor_witness :
  exists i text conf cleaned,
    nth_error (extract_text three_runs tt) i = Some (text, conf) /\
    cleaned_form (toupper three_runs) text cleaned /\
    4 <= len cleaned <= 10 /\
    extract_plate_number three_runs tt = Some (cleaned, conf) /\
    (forall j text' conf' cleaned',
       nth_error (extract_text three_runs tt) j = Some (text', conf') ->
       cleaned_form (toupper three_runs) text' cleaned' ->
       4 <= len cleaned' <= 10 ->
       (conf' <= conf)%Q /\ ((j < i)%nat -> (conf' < conf)%Q)).
Proof.
  apply (extract_plate_number_best_survivor three_runs tt).
  apply Exists_cons_tl, Exists_cons_hd. exists (str_of "KA01AB").
  split; [now apply (cleaned_form_iff three_runs)|].
  vm_compute. split; discriminate.
Defined.

(** ** Stable descending sort *)

Section SortedReverse.
Context {A : Type}.
Variable key : A -> Q.

(** Where [insert_desc] puts the new item: behind a prefix of strictly
    greater keys, in front of an item whose key is not greater. *)
Lemma insert_desc_split (x : A) (l : list A) :
  exists l1 l2,
    l = l1 ++ l2 /\
    insert_desc key x l = l1 ++ x :: l2 /\
    Forall (fun y => (key x < key y)%Q) l1 /\
    (forall y, hd_error l2 = Some y -> (key y <= key x)%Q).
Proof.
  induction l as [|y l IH]; simpl.
  - exists [], []. repeat split; auto. intros y Hy. discriminate.
  - destruct (Qgtb (key y) (key x)) eqn:E.
    + apply Qgtb_true in E.
      destruct IH as (l1 & l2 & H1 & H2 & H3 & H4).
      exists (y :: l1), l2. simpl. rewrite H2, <- H1.
      repeat split; auto.
    + apply Qgtb_false in E.
      exists [], (y :: l). simpl. repeat split; auto.
      intros z Hz. now injection Hz as <-.
Qed.

Lemma insert_desc_perm (x : A) (l : list A) :
  Permutation (x :: l) (insert_desc key x l).
Proof.
  destruct (insert_desc_split x l) as (l1 & l2 & H1 & H2 & _).
  rewrite H2, H1. apply Permutation_middle.
Qed.

Lemma sorted_reverse_perm (l : list A) :
  Permutation l (sorted_reverse key l).
Proof.
  induction l as [|x l IH]; simpl; [constructor|].
  etransitivity; [|apply insert_desc_perm]. now constructor.
Qed.

Lemma sorted_reverse_in (l : list A) (x : A) :
  In x (sorted_reverse key l) <-> In x l.
Proof.
  split; apply Permutation_in;
    [symmetry|]; apply sorted_reverse_perm.
Qed.

Lemma sorted_reverse_length (l : list A) :
  length (sorted_reverse key l) = length l.
Proof. symmetry. apply Permutation_length, sorted_reverse_perm. Qed.

Lemma insert_desc_descending (x : A) (l : list A) :
  descending key l -> descending key (insert_desc key x l).
Proof.
  unfold descending. induction l as [|y l IH]; intros Hs; simpl.
  - repeat constructor.
  - inversion Hs as [|? ? Hl Hy]; subst.
    destruct (Qgtb (key y) (key x)) eqn:E.
    + apply Qgtb_true in E. constructor; [now apply IH|].
      apply Forall_forall. intros z Hz.
      apply (Permutation_in _ (Permutation_sym (insert_desc_perm x l))) in Hz.
      destruct Hz as [<-|Hz]; [now apply Qlt_le_weak|].
      rewrite Forall_forall in Hy. now apply Hy.
    + apply Qgtb_false in E. constructor; [exact Hs|].
      constructor; [exact E|].
      eapply Forall_impl; [|exact Hy]. intros z Hz. simpl in Hz.
      eapply Qle_trans; eassumption.
Qed.

Lemma sorted_reverse_descending (l : list A) :
  descending key (sorted_reverse key l).
Proof.
  induction l as [|x l IH]; simpl; [constructor|].
  now apply insert_desc_descending.
Qed.

(** Stability: the items of any one key appear in their original
    order. *)
Lemma sorted_reverse_stable (l : list A) (k : Q) :
  filter (fun a => Qeq_bool (key a) k) (sorted_reverse key l) =
  filter (fun a => Qeq_bool (key a) k) l.
Proof.
  induction l as [|x l IH]; simpl; [reflexivity|].
  destruct (insert_desc_split x (sorted_reverse key l))
    as (l1 & l2 & H1 & H2 & H3 & _).
  rewrite H2, <- IH, H1, !filter_app. simpl.
  destruct (Qeq_bool (key x) k) eqn:E; [|reflexivity].
  apply Qeq_bool_iff in E.
  assert (Hnil : filter (fun a => Qeq_bool (key a) k) l1 = []).
  { clear H1 H2. induction l1 as [|y l1 IHl]; [reflexivity|].
    inversion H3 as [|? ? Hy Hl]; subst. simpl.
    destruct (Qeq_bool (key y) k) eqn:Ey; [|now apply IHl].
    apply Qeq_bool_iff in Ey. rewrite E, Ey in Hy.
    now apply Qlt_irrefl in Hy. }
  now rewrite Hnil.
Qed.

(** The head of the sorted list is the first item of greatest key. *)
Lemma sorted_reverse_head (l : list A) (b : A) :
  hd_error (sorted_reverse key l) = Some b -> first_max key l b.
Proof.
  revert b. induction l as [|x l IH]; intros b; simpl; [discriminate|].
  destruct (sorted_reverse key l) as [|y t] eqn:Es.
  - simpl. intros H. injection H as <-.
    assert (l = []) as ->.
    { apply length_zero_iff_nil. rewrite <- sorted_reverse_length, Es.
      reflexivity. }
    exists 0%nat. split; [reflexivity|]. split.
    + intros [|[|j]] z Hz; simpl in Hz; try discriminate.
      injection Hz as <-. apply Qle_refl.
    + intros j z Hj. lia.
  - destruct (IH y eq_refl) as (i & Hi & Hle & Hlt).
    simpl. destruct (Qgtb (key y) (key x)) eqn:E; simpl; intros H;
      injection H as <-.
    + apply Qgtb_true in E. exists (S i). split; [exact Hi|]. split.
      * intros [|j] z Hz; simpl in Hz.
        -- injection Hz as <-. now apply Qlt_le_weak.
        -- exact (Hle j z Hz).
      * intros [|j] z Hj Hz; simpl in Hz.
        -- now injection Hz as <-.
        -- apply (Hlt j z); [lia|exact Hz].
    + apply Qgtb_false in E. exists 0%nat. split; [reflexivity|]. split.
      * intros [|j] z Hz; simpl in Hz.
        -- injection Hz as <-. apply Qle_refl.
        -- eapply Qle_trans; [exact (Hle j z Hz)|exact E].
      * intros j z Hj. lia.
Qed.
End SortedReverse.

(** ** Slices *)

Lemma py_slice_len {A : Type} (l : list A) (a b : Z) :
  0 <= a -> 0 <= b <= len l -> len (py_slice l a b) = Z.max 0 (b - a).
Proof.
  intros Ha Hb. unfold py_slice, adjust_index, len in *.
  destruct (Z.ltb_spec a 0); [lia|]. destruct (Z.ltb_spec b 0); [lia|].
  rewrite length_firstn, length_skipn. lia.
Qed.

Lemma py_slice_nth {A : Type} (l : list A) (a b i : Z) :
  0 <= a -> 0 <= b <= len l -> 0 <= i < b - a ->
  nth_error (py_slice l a b) (Z.to_nat i) = nth_error l (Z.to_nat (a + i)).
Proof.
  intros Ha Hb Hi. unfold py_slice, adjust_index, len in *.
  destruct (Z.ltb_spec a 0); [lia|]. destruct (Z.ltb_spec b 0); [lia|].
  rewrite nth_error_firstn, nth_error_skipn.
  replace (Z.to_nat (Z.min a (Z.of_nat (length l))) + Z.to_nat i)%nat
    with (Z.to_nat (a + i)) by lia.
  destruct (Nat.ltb_spec (Z.to_nat i)
              (Z.to_nat (Z.min b (Z.of_nat (length l))
                         - Z.min a (Z.of_nat (length l))))); [reflexivity|lia].
Qed.

Lemma py_slice_In {A : Type} (l : list A) (a b : Z) (x : A) :
  In x (py_slice l a b) -> In x l.
Proof.
  unfold py_slice. intros H.
  set (n := Z.to_nat (adjust_index a (len l))) in *.
  set (k := Z.to_nat (adjust_index b (len l) - adjust_index a (len l))) in *.
  rewrite <- (firstn_skipn n l). apply in_or_app. right.
  rewrite <- (firstn_skipn k (skipn n l)). apply in_or_app. now left.
Qed.

Lemma slice2_window {px : Type} (img : ndarray px) (y1 y2 x1 x2 : Z) :
  rectangular img ->
  0 <= y1 -> 0 <= y2 <= shape0 img ->
  0 <= x1 -> 0 <= x2 <= shape1 img ->
  window img (slice2 img y1 y2 x1 x2) y1 y2 x1 x2.
Proof.
  intros Hrect Hy1 Hy2 Hx1 Hx2. unfold window, slice2, shape0 in *.
  assert (Hrows : Forall (fun row => len row = shape1 img) (py_slice img y1 y2)).
  { apply Forall_forall. intros row Hin. apply py_slice_In in Hin.
    unfold rectangular in Hrect. rewrite Forall_forall in Hrect.
    now apply Hrect. }
  split; [|split].
  - unfold len at 1. rewrite length_map. now apply py_slice_len.
  - apply Forall_map. eapply Forall_impl; [|exact Hrows].
    intros row Hrow. simpl in Hrow. apply py_slice_len; [exact Hx1|lia].
  - intros r c Hr Hc. unfold pixel_at.
    rewrite nth_error_map, (py_slice_nth img y1 y2 r Hy1 Hy2 Hr).
    destruct (nth_error img (Z.to_nat (y1 + r))) as [row|] eqn:E;
      [|reflexivity].
    simpl. apply py_slice_nth; [exact Hx1| |exact Hc].
    apply nth_error_In in E.
    unfold rectangular in Hrect. rewrite Forall_forall in Hrect.
    rewrite (Hrect row E). exact Hx2.
Qed.

(** ** PlateDetector.get_best_plate *)

Section PlateDetectorFacts.
Context {px : Type}.
Variable self : PlateDetector px.
Variable img : ndarray px.

Lemma detect_plates_returns :
  exists plates, detect_plates self img = ([Haarcascade], Return plates).
Proof. unfold detect_plates, called. eexists. reflexivity. Qed.

Lemma detect_plates_contour_method_log :
  fst (detect_plates_contour_method self img) = [ContourMethod].
Proof. reflexivity. Qed.

Lemma get_best_plate_unfold :
  get_best_plate self img =
  match snd (detect_plates self img) with
  | Return (p :: ps) => ([Haarcascade], crop_largest img (p :: ps))
  | Return [] =>
      ([Haarcascade; ContourMethod],
       match snd (detect_plates_contour_method self img) with
       | Return [] => Return None
       | Return (p :: ps) => crop_largest img (p :: ps)
       | Raise e => Raise e
       end)
  | Raise e => ([Haarcascade], Raise e)
  end.
Proof.
  destruct detect_plates_returns as (plates & Hd).
  unfold get_best_plate. rewrite Hd. cbn [snd lbind].
  destruct plates as [|p ps].
  - cbn [py_not].
    destruct (detect_plates_contour_method self img) as [log r] eqn:Ec.
    pose proof detect_plates_contour_method_log as Hlog.
    rewrite Ec in Hlog. simpl in Hlog. subst log. cbn [snd lbind].
    destruct r as [[|q qs]|e]; cbn [py_not]; try reflexivity.
    unfold crop_largest.
    destruct (sorted_reverse area (q :: qs)) as [|[[[x y] w] h] t];
      reflexivity.
  - cbn [py_not ret lbind]. unfold crop_largest.
    destruct (sorted_reverse area (p :: ps)) as [|[[[x y] w] h] t];
      reflexivity.
Qed.

Lemma get_best_plate_result :
  snd (get_best_plate self img) =
  match boxes_used self img with
  | Return [] => Return None
  | Return (p :: ps) => crop_largest img (p :: ps)
  | Raise e => Raise e
  end.
Proof.
  rewrite get_best_plate_unfold. unfold boxes_used.
  destruct (snd (detect_plates self img)) as [[|p ps]|e]; reflexivity.
Qed.

(** The box [crop_largest img] selects and what it returns with it. *)
Lemma crop_largest_selects (plates : list box) :
  plates <> [] ->
  exists x y w h,
    first_max area plates (x, y, w, h) /\
    crop_largest img plates =
    Return (Some (slice2 img (Z.max 0 (y - 5))
                    (Z.min (shape0 img) (y + h + 5))
                    (Z.max 0 (x - 5))
                    (Z.min (shape1 img) (x + w + 5)),
                  (x, y, w, h))).
Proof.
  intros Hne. unfold crop_largest.
  pose proof (sorted_reverse_head area plates) as Hh.
  destruct (sorted_reverse area plates) as [|[[[x y] w] h] t] eqn:Es.
  - exfalso. apply Hne, length_zero_iff_nil.
    now rewrite <- (sorted_reverse_length area), Es.
  - exists x, y, w, h. split; [now apply Hh|reflexivity].
Qed.
End PlateDetectorFacts.

(** The sort key compares boxes by width times height. *)
Lemma area_le (x y w h x' y' w' h' : Z) :
  (area (x', y', w', h') <= area (x, y, w, h))%Q <-> w' * h' <= w * h.
Proof. unfold area, Qle. simpl. lia. Qed.

Lemma area_lt (x y w h x' y' w' h' : Z) :
  (area (x', y', w', h') < area (x, y, w, h))%Q <-> w' * h' < w * h.
Proof. unfold area, Qlt. simpl. lia. Qed.

Lemma first_max_area (plates : list box) (b : box) :
  first_max area plates b <-> earliest_largest plates b.
Proof.
  destruct b as [[[x y] w] h]. unfold first_max, earliest_largest.
  split; intros (i & Hi & Hle & Hlt); exists i; (split; [exact Hi|]); split.
  - intros j x' y' w' h' Hj.
    apply (proj1 (area_le x y w h x' y' w' h')). exact (Hle j _ Hj).
  - intros j x' y' w' h' Hji Hj.
    apply (proj1 (area_lt x y w h x' y' w' h')). exact (Hlt j _ Hji Hj).
  - intros j [[[x' y'] w'] h'] Hj.
    apply (proj2 (area_le x y w h x' y' w' h')). exact (Hle j _ _ _ _ Hj).
  - intros j [[[x' y'] w'] h'] Hji Hj.
    apply (proj2 (area_lt x y w h x' y' w' h')). exact (Hlt j _ _ _ _ Hji Hj).
Qed.

Section PlateDetectorClaims.
Context {px : Type}.
Variable self : PlateDetector px.
Variable img : ndarray px.


(** C5.  The classifier is called first; the contour method is called
    exactly when the classifier returned no box; and the result is [None]
    exactly when both returned the empty list. *)
Theorem get_best_plate_detector_order :
  (exists log, fst (get_best_plate self img) = Haarcascade :: log) /\
  (In ContourMethod (fst (get_best_plate self img)) <->
   snd (detect_plates self img) = Return []) /\
  (snd (get_best_plate self img) = Return None <->
   snd (detect_plates self img) = Return [] /\
   snd (detect_plates_contour_method self img) = Return []).
Proof.
  rewrite get_best_plate_unfold.
  destruct (detect_plates_returns self img) as (plates & Hd).
  rewrite Hd. cbn [snd].
  assert (Hsome : forall p ps, crop_largest img (p :: ps) <> Return None).
  { intros p ps H.
    destruct (crop_largest_selects img (p :: ps)) as (x & y & w & h & _ & Hc);
      [discriminate|]. congruence. }
  destruct plates as [|p ps]; cbn [fst snd].
  - split; [eexists; reflexivity|]. split.
    + split; [reflexivity|]. intros _. simpl. auto.
    + destruct (snd (detect_plates_contour_method self img)) as [[|q qs]|e].
      * tauto.
      * split; [intros H; now apply Hsome in H|].
        intros [_ H]. discriminate.
      * split; [discriminate|]. intros [_ H]. discriminate.
  - split; [eexists; reflexivity|]. split.
    + split; [|discriminate]. simpl. intros [H|[]]. discriminate.
    + split; [intros H; now apply Hsome in H|].
      intros [H _]. discriminate.
Qed.

(** C9.  The reported box is the earliest box of greatest width times
    height in the order of the detector that ran: no box of the list has a
    greater product and every box in front of it has a smaller one.  There
    is one such box, so the choice is determined by that list. *)
Theorem get_best_plate_tie_break (plates : list box) :
  boxes_used self img = Return plates ->
  plates <> [] ->
  exists b plate_img,
    snd (get_best_plate self img) = Return (Some (plate_img, b)) /\
    earliest_largest plates b /\
    (forall b', earliest_largest plates b' -> b' = b).
Proof.
  intros Hused Hne.
  destruct (crop_largest_selects img plates Hne)
    as (x & y & w & h & Hmax & Hcrop).
  exists (x, y, w, h). eexists. split; [|split].
  - rewrite get_best_plate_result, Hused.
    destruct plates; [congruence|exact Hcrop].
  - now apply first_max_area.
  - intros b' Hb'. apply first_max_area in Hb'.
    exact (first_max_unique _ _ _ _ Hb' Hmax).
Qed.
End PlateDetectorClaims.

(** ** binary64 rounding *)

(** The model against known binary64 values: the doubles nearest to 0.1
    and to 1/3, a tie that goes to the even neighbour, and an integer
    above [2^53]. *)
Example rn64_one_tenth :
  (rn64 (1 # 10) == 3602879701896397 # 36028797018963968)%Q.
Proof. reflexivity. Qed.

Example rn64_minus_one_third :
  (rn64 (- (1 # 3)) == - (6004799503160661 # 18014398509481984))%Q.
Proof. reflexivity. Qed.

Example rn64_tie_to_even :
  (rn64 (inject_Z (2 ^ 53 + 1)) == inject_Z (2 ^ 53))%Q /\
  (rn64 (inject_Z (2 ^ 53 + 3)) == inject_Z (2 ^ 53 + 4))%Q.
Proof. split; reflexivity. Qed.

(** Line 118 on a 3000 x 2999 image: the new width is 1919. *)
Example new_width_of_2999 :
  bind (int_truediv 1920 3000)
       (fun scale => Return (int_of_float (fmul (float_of_int 2999) scale))) =
  Return 1919.
Proof. vm_compute. reflexivity. Qed.

Lemma pow2_pos (e : Z) : (0 < pow2 e)%Q.
Proof. unfold pow2. now apply Qpower_0_lt. Qed.

Lemma pow2_add (a b : Z) : (pow2 (a + b) == pow2 a * pow2 b)%Q.
Proof. unfold pow2. now apply Qpower_plus. Qed.

Lemma pow2_le (a b : Z) : a <= b -> (pow2 a <= pow2 b)%Q.
Proof. intros H. unfold pow2. now apply Qpower_le_compat_l. Qed.

Lemma pow2_lt (a b : Z) : a < b -> (pow2 a < pow2 b)%Q.
Proof. intros H. unfold pow2. now apply Qpower_lt_compat_l. Qed.

Lemma pow2_lt_inv (a b : Z) : (pow2 a < pow2 b)%Q -> a < b.
Proof. unfold pow2. intros H. now apply Qpower_lt_compat_l_inv in H. Qed.

Lemma pow2_Z (e : Z) : 0 <= e -> (pow2 e == inject_Z (2 ^ e))%Q.
Proof. intros H. unfold pow2. now rewrite Zpower_Qpower. Qed.

Lemma log2_bounds (n : Z) :
  0 < n -> (pow2 (Z.log2 n) <= inject_Z n < pow2 (Z.log2 n + 1))%Q.
Proof.
  intros Hn. pose proof (Z.log2_nonneg n) as H0.
  destruct (Z.log2_spec n Hn) as [H1 H2].
  rewrite !pow2_Z by lia. rewrite <- Zle_Qle, <- Zlt_Qlt.
  replace (Z.log2 n + 1) with (Z.succ (Z.log2 n)) by lia. split; assumption.
Qed.

Lemma binade_spec (q : Q) :
  (0 < q)%Q -> (pow2 (binade q) <= q < pow2 (binade q + 1))%Q.
Proof.
  intros Hq. destruct q as [n d].
  assert (Hn : 0 < n) by (unfold Qlt in Hq; simpl in Hq; lia).
  unfold binade. cbn [Qnum Qden].
  set (a := Z.log2 n). set (b := Z.log2 (Z.pos d)).
  destruct (log2_bounds n Hn) as [Ha1 Ha2]. fold a in Ha1, Ha2.
  destruct (log2_bounds (Z.pos d) eq_refl) as [Hb1 Hb2]. fold b in Hb1, Hb2.
  assert (Hq' : (n # d == inject_Z n / inject_Z (Z.pos d))%Q)
    by apply Qmake_Qdiv.
  assert (Hd : (0 < inject_Z (Z.pos d))%Q) by (rewrite <- (Zlt_Qlt 0); lia).
  pose proof (pow2_pos b) as Hpb. pose proof (pow2_pos (a - b)) as Hpab.
  assert (E1 : (pow2 a == pow2 (a - b) * pow2 b)%Q)
    by (rewrite <- pow2_add; now replace (a - b + b) with a by lia).
  assert (E2 : (pow2 (a + 1) == pow2 (a - b + 1) * pow2 b)%Q)
    by (rewrite <- pow2_add; now replace (a - b + 1 + b) with (a + 1) by lia).
  assert (E3 : (pow2 (a - b) * pow2 (b + 1) == pow2 (a - b - 1) * pow2 (b + 1) * 2)%Q).
  { replace (a - b) with (a - b - 1 + 1) at 1 by lia.
    rewrite (pow2_add (a - b - 1) 1). unfold pow2 at 2. simpl. ring. }
  assert (E4 : (pow2 a == pow2 (a - b - 1) * pow2 (b + 1))%Q)
    by (rewrite <- pow2_add; now replace (a - b - 1 + (b + 1)) with a by lia).
  assert (Hmul : ((n # d) * inject_Z (Z.pos d) == inject_Z n)%Q).
  { rewrite Hq'. field. intros H. rewrite H in Hd. now apply Qlt_irrefl in Hd. }
  destruct (Qle_bool (pow2 (a - b)) (n # d)) eqn:E.
  - apply Qle_bool_iff in E. split; [exact E|].
    apply Qnot_le_lt. intros Hc.
    assert (pow2 (a + 1) <= inject_Z n)%Q.
    { rewrite E2, <- Hmul.
      apply Qle_trans with ((n # d) * pow2 b)%Q.
      - apply Qmult_le_compat_r; [exact Hc|now apply Qlt_le_weak].
      - rewrite (Qmult_comm (n # d)), (Qmult_comm (n # d)).
        apply Qmult_le_compat_r; [exact Hb1|now apply Qlt_le_weak]. }
    apply (Qlt_not_le _ _ Ha2). assumption.
  - assert (Hlt : (n # d < pow2 (a - b))%Q).
    { apply Qnot_le_lt. intros Hc. apply Qle_bool_iff in Hc. congruence. }
    split.
    + apply Qnot_lt_le. intros Hc.
      assert (inject_Z n < pow2 a)%Q.
      { rewrite E4, <- Hmul.
        apply Qlt_le_trans with (pow2 (a - b - 1) * inject_Z (Z.pos d))%Q.
        - apply Qmult_lt_compat_r; assumption.
        - rewrite (Qmult_comm _ (inject_Z _)), (Qmult_comm _ (pow2 (b + 1))).
          apply Qmult_le_compat_r;
            [now apply Qlt_le_weak|apply Qlt_le_weak, pow2_pos]. }
      apply (Qlt_not_le _ _ H). assumption.
    + replace (a - b - 1 + 1) with (a - b) by lia. exact Hlt.
Qed.

Lemma binade_lt (q : Q) (k : Z) : (0 < q)%Q -> (q < pow2 k)%Q -> binade q < k.
Proof.
  intros Hq Hk. destruct (binade_spec q Hq) as [H1 _].
  apply pow2_lt_inv. eapply Qle_lt_trans; eassumption.
Qed.

Lemma binade_ge (q : Q) (k : Z) : (pow2 k <= q)%Q -> k <= binade q.
Proof.
  intros Hk.
  assert (Hq : (0 < q)%Q) by (eapply Qlt_le_trans; [apply pow2_pos|exact Hk]).
  destruct (binade_spec q Hq) as [_ H2].
  assert (k < binade q + 1); [|lia].
  apply pow2_lt_inv. eapply Qle_lt_trans; eassumption.
Qed.

Lemma round_half_even_cases (y : Q) :
  round_half_even y = Qfloor y \/
  (round_half_even y = Qfloor y + 1 /\ (inject_Z (Qfloor y) < y)%Q).
Proof.
  unfold round_half_even.
  destruct (y - inject_Z (Qfloor y) ?= 1 # 2)%Q eqn:E.
  - apply Qeq_alt in E. destruct (Z.even (Qfloor y)); [now left|right].
    split; [reflexivity|]. lra.
  - now left.
  - right. split; [reflexivity|]. apply Qgt_alt in E. lra.
Qed.

Lemma round_half_even_le (y : Q) (k : Z) :
  (y <= inject_Z k)%Q -> round_half_even y <= k.
Proof.
  intros H. pose proof (Qfloor_le y) as Hf.
  destruct (round_half_even_cases y) as [->|[-> Hlt]].
  - rewrite Zle_Qle. lra.
  - assert (Qfloor y < k); [|lia]. rewrite Zlt_Qlt. lra.
Qed.

Lemma round_half_even_ge (y : Q) (k : Z) :
  (inject_Z k <= y)%Q -> k <= round_half_even y.
Proof.
  intros H.
  assert (Hk : k <= Qfloor y).
  { rewrite <- (Qfloor_Z k). now apply Qfloor_resp_le. }
  destruct (round_half_even_cases y) as [->|[-> _]]; lia.
Qed.

Lemma round_half_even_upper (y : Q) :
  (inject_Z (round_half_even y) <= y + 1)%Q.
Proof.
  pose proof (Qfloor_le y) as Hf.
  destruct (round_half_even_cases y) as [->|[-> _]].
  - lra.
  - rewrite inject_Z_plus. change (inject_Z 1) with 1%Q. lra.
Qed.

Lemma rn64_of_pos (q : Q) : (0 < q)%Q -> rn64 q = rn64_pos q.
Proof.
  intros H. unfold rn64. destruct (q ?= 0)%Q eqn:E; [| |reflexivity].
  - apply Qeq_alt in E. lra.
  - apply Qlt_alt in E. lra.
Qed.

Lemma rn64_of_neg (q : Q) : (q < 0)%Q -> rn64 q = (- rn64_pos (- q))%Q.
Proof.
  intros H. unfold rn64. destruct (q ?= 0)%Q eqn:E; [|reflexivity|].
  - apply Qeq_alt in E. lra.
  - apply Qgt_alt in E. lra.
Qed.

Lemma rn64_of_zero (q : Q) : (q == 0)%Q -> rn64 q = 0%Q.
Proof.
  intros H. unfold rn64. destruct (q ?= 0)%Q eqn:E; [reflexivity| |].
  - apply Qlt_alt in E. lra.
  - apply Qgt_alt in E. lra.
Qed.

Lemma rn64_pos_nonneg (q : Q) : (0 < q)%Q -> (0 <= rn64_pos q)%Q.
Proof.
  intros Hq. unfold rn64_pos. pose proof (pow2_pos (ulp_exp q)) as Hp.
  apply Qmult_le_0_compat; [|lra].
  rewrite <- (Zle_Qle 0). apply round_half_even_ge.
  apply Qlt_le_weak. apply Qlt_shift_div_l; [exact Hp|].
  change (inject_Z 0) with 0%Q. now rewrite Qmult_0_l.
Qed.

(** A multiple of [2^E] is a multiple of every finer [2^e]. *)
Lemma grid_refine (t : Q) (k E e : Z) :
  (t == inject_Z k * pow2 E)%Q -> e <= E ->
  exists k', (t == inject_Z k' * pow2 e)%Q.
Proof.
  intros Ht He. exists (k * 2 ^ (E - e)).
  rewrite Ht, inject_Z_mult, <- pow2_Z by lia.
  rewrite <- Qmult_assoc, <- pow2_add.
  now replace (E - e + e) with E by lia.
Qed.

(** Rounding does not cross a point of its own grid. *)
Lemma rn64_pos_le_grid (q t : Q) (k E : Z) :
  (0 < q)%Q -> (q <= t)%Q -> (t == inject_Z k * pow2 E)%Q -> ulp_exp q <= E ->
  (rn64_pos q <= t)%Q.
Proof.
  intros Hq Hle Ht He.
  destruct (grid_refine t k E (ulp_exp q) Ht He) as (k' & Hk').
  pose proof (pow2_pos (ulp_exp q)) as Hp.
  unfold rn64_pos. rewrite Hk'.
  apply Qmult_le_compat_r; [|lra].
  rewrite <- Zle_Qle. apply round_half_even_le.
  apply Qle_shift_div_r; [exact Hp|]. now rewrite <- Hk'.
Qed.

Lemma rn64_pos_ge_grid (q t : Q) (k E : Z) :
  (0 < q)%Q -> (t <= q)%Q -> (t == inject_Z k * pow2 E)%Q -> ulp_exp q <= E ->
  (t <= rn64_pos q)%Q.
Proof.
  intros Hq Hle Ht He.
  destruct (grid_refine t k E (ulp_exp q) Ht He) as (k' & Hk').
  pose proof (pow2_pos (ulp_exp q)) as Hp.
  unfold rn64_pos. rewrite Hk'.
  apply Qmult_le_compat_r; [|lra].
  rewrite <- Zle_Qle. apply round_half_even_ge.
  apply Qle_shift_div_l; [exact Hp|]. now rewrite <- Hk'.
Qed.

Lemma rn64_pos_upper (q : Q) :
  (0 < q)%Q -> (rn64_pos q <= q + pow2 (ulp_exp q))%Q.
Proof.
  intros Hq. pose proof (pow2_pos (ulp_exp q)) as Hp. unfold rn64_pos.
  apply Qle_trans with ((q / pow2 (ulp_exp q) + 1) * pow2 (ulp_exp q))%Q.
  - apply Qmult_le_compat_r; [apply round_half_even_upper|lra].
  - apply Qle_lteq. right. field. lra.
Qed.

Lemma ulp_exp_le (q : Q) (k : Z) :
  (0 < q)%Q -> (q < pow2 k)%Q -> -1021 <= k -> ulp_exp q <= k - 53.
Proof.
  intros Hq Hk Hr. pose proof (binade_lt q k Hq Hk). unfold ulp_exp. lia.
Qed.

Lemma rn64_pos_exact (q : Q) (k E : Z) :
  (0 < q)%Q -> (q == inject_Z k * pow2 E)%Q -> ulp_exp q <= E ->
  (rn64_pos q == q)%Q.
Proof.
  intros Hq Hg He. apply Qle_antisym.
  - apply (rn64_pos_le_grid q q k E); auto. apply Qle_refl.
  - apply (rn64_pos_ge_grid q q k E); auto. apply Qle_refl.
Qed.

Lemma inject_Z_lt_pow2 (z k : Z) :
  0 <= k -> z < 2 ^ k -> (inject_Z z < pow2 k)%Q.
Proof. intros Hk Hz. rewrite pow2_Z by exact Hk. now rewrite <- Zlt_Qlt. Qed.

(** Integers below [2^53] in magnitude are binary64 numbers. *)
Lemma float_of_int_exact (z : Z) :
  Z.abs z < 2 ^ 53 -> (float_of_int z == inject_Z z)%Q.
Proof.
  intros Hz. unfold float_of_int.
  assert (Hpos : forall n, 0 < n < 2 ^ 53 ->
                 (rn64_pos (inject_Z n) == inject_Z n)%Q).
  { intros n Hn.
    assert (H0 : (0 < inject_Z n)%Q) by (rewrite <- (Zlt_Qlt 0); lia).
    apply (rn64_pos_exact _ n 0 H0).
    - unfold pow2. simpl. ring.
    - assert (ulp_exp (inject_Z n) <= 53 - 53); [|lia].
      apply ulp_exp_le; [exact H0| |lia].
      apply inject_Z_lt_pow2; lia. }
  destruct (Z.lt_trichotomy z 0) as [H|[H|H]].
  - assert (H0 : (inject_Z z < 0)%Q) by (rewrite <- (Zlt_Qlt _ 0); lia).
    rewrite (rn64_of_neg _ H0), <- inject_Z_opp, Hpos by lia.
    rewrite inject_Z_opp. ring.
  - subst z. reflexivity.
  - assert (H0 : (0 < inject_Z z)%Q) by (rewrite <- (Zlt_Qlt 0); lia).
    rewrite (rn64_of_pos _ H0). apply Hpos. lia.
Qed.

Lemma rn64_nonpos (q : Q) : (q <= 0)%Q -> (rn64 q <= 0)%Q.
Proof.
  intros H. destruct (Qlt_le_dec q 0) as [Hlt|Hge].
  - rewrite (rn64_of_neg _ Hlt).
    assert (0 <= rn64_pos (- q))%Q by (apply rn64_pos_nonneg; lra). lra.
  - rewrite rn64_of_zero by lra. apply Qle_refl.
Qed.

Lemma rn64_nonneg (q : Q) : (0 <= q)%Q -> (0 <= rn64 q)%Q.
Proof.
  intros H. destruct (Qlt_le_dec 0 q) as [Hlt|Hge].
  - rewrite (rn64_of_pos _ Hlt). now apply rn64_pos_nonneg.
  - rewrite rn64_of_zero by lra. apply Qle_refl.
Qed.

(** A ratio of integers with denominator at most [2^31] that differs
    from an integer differs from it by at least [2^-31]. *)
Lemma pow2_m31 (b : Q) :
  (0 < b)%Q -> (b <= inject_Z (2 ^ 31))%Q -> (pow2 (-31) * b <= 1)%Q.
Proof.
  intros H0 H1.
  assert (E : (pow2 (-31) * inject_Z (2 ^ 31) == 1)%Q) by reflexivity.
  rewrite <- E. rewrite (Qmult_comm _ b), (Qmult_comm _ (inject_Z _)).
  apply Qmult_le_compat_r; [exact H1|]. apply Qlt_le_weak, pow2_pos.
Qed.

Lemma ratio_gap_below (x : Q) (w h k : Z) :
  0 < h <= 2 ^ 31 -> (x * inject_Z h == inject_Z w)%Q ->
  (x < inject_Z k)%Q -> (x <= inject_Z k - pow2 (-31))%Q.
Proof.
  intros Hh Hx Hlt.
  assert (Hb0 : (0 < inject_Z h)%Q) by (rewrite <- (Zlt_Qlt 0); lia).
  assert (Hb1 : (inject_Z h <= inject_Z (2 ^ 31))%Q) by (rewrite <- Zle_Qle; lia).
  pose proof (pow2_m31 _ Hb0 Hb1) as Hc.
  assert (Hw : w < k * h).
  { rewrite Zlt_Qlt, inject_Z_mult, <- Hx.
    now apply Qmult_lt_compat_r. }
  assert (Hw' : (inject_Z w + 1 <= inject_Z k * inject_Z h)%Q).
  { rewrite <- inject_Z_mult. change 1%Q with (inject_Z 1).
    rewrite <- inject_Z_plus, <- Zle_Qle. lia. }
  apply Qnot_lt_le. intros Hc'.
  assert (Hm : ((inject_Z k - pow2 (-31)) * inject_Z h < x * inject_Z h)%Q)
    by now apply Qmult_lt_compat_r.
  rewrite Hx in Hm. lra.
Qed.

Lemma ratio_gap_above (x : Q) (w h k : Z) :
  0 < h <= 2 ^ 31 -> (x * inject_Z h == inject_Z w)%Q ->
  (inject_Z k < x)%Q -> (inject_Z k + pow2 (-31) <= x)%Q.
Proof.
  intros Hh Hx Hlt.
  assert (Hb0 : (0 < inject_Z h)%Q) by (rewrite <- (Zlt_Qlt 0); lia).
  assert (Hb1 : (inject_Z h <= inject_Z (2 ^ 31))%Q) by (rewrite <- Zle_Qle; lia).
  pose proof (pow2_m31 _ Hb0 Hb1) as Hc.
  assert (Hw : k * h < w).
  { rewrite Zlt_Qlt, inject_Z_mult, <- Hx.
    now apply Qmult_lt_compat_r. }
  assert (Hw' : (inject_Z k * inject_Z h + 1 <= inject_Z w)%Q).
  { rewrite <- inject_Z_mult. change 1%Q with (inject_Z 1).
    rewrite <- inject_Z_plus, <- Zle_Qle. lia. }
  apply Qnot_lt_le. intros Hc'.
  assert (Hm : (x * inject_Z h < (inject_Z k + pow2 (-31)) * inject_Z h)%Q)
    by now apply Qmult_lt_compat_r.
  rewrite Hx in Hm. lra.
Qed.

(** The comparisons of line 95 on a correctly rounded ratio of 32-bit
    integers decide the same as on the exact ratio. *)
Lemma rn64_ratio_window (x : Q) (w h : Z) :
  0 < h <= 2 ^ 31 -> Z.abs w <= 2 ^ 31 ->
  (x * inject_Z h == inject_Z w)%Q ->
  (2 <= rn64 x)%Q -> (rn64 x <= 5)%Q -> (2 <= x <= 5)%Q.
Proof.
  intros Hh Hw Hx H2 H5.
  pose proof (pow2_pos (-31)) as Hc.
  split; apply Qnot_lt_le; intros Hlt.
  - destruct (Qlt_le_dec 0 x) as [Hpos|Hneg].
    + rewrite (rn64_of_pos _ Hpos) in H2.
      pose proof (ratio_gap_below x w h 2 Hh Hx Hlt) as Hgap.
      assert (Hr : (rn64_pos x <= inject_Z 2 - pow2 (-31))%Q).
      { apply (rn64_pos_le_grid x _ (2 ^ 32 - 1) (-31) Hpos Hgap).
        - reflexivity.
        - assert (ulp_exp x <= 1 - 53); [|lia].
          apply ulp_exp_le; [exact Hpos|exact Hlt|lia]. }
      change (inject_Z 2) with 2%Q in Hr. lra.
    + pose proof (rn64_nonpos x Hneg). lra.
  - assert (Hpos : (0 < x)%Q) by lra.
    rewrite (rn64_of_pos _ Hpos) in H5.
    destruct (Qlt_le_dec x 8) as [H8|H8].
    + pose proof (ratio_gap_above x w h 5 Hh Hx Hlt) as Hgap.
      assert (Hr : (inject_Z 5 + pow2 (-31) <= rn64_pos x)%Q).
      { apply (rn64_pos_ge_grid x _ (5 * 2 ^ 31 + 1) (-31) Hpos Hgap).
        - reflexivity.
        - assert (ulp_exp x <= 3 - 53); [|lia].
          apply ulp_exp_le; [exact Hpos|exact H8|lia]. }
      change (inject_Z 5) with 5%Q in Hr. lra.
    + assert (Hr : (8 <= rn64_pos x)%Q).
      { apply (rn64_pos_ge_grid x 8 8 0 Hpos H8).
        - reflexivity.
        - assert (ulp_exp x <= 32 - 53); [|lia].
          apply ulp_exp_le; [exact Hpos| |lia].
          assert (Hb : (1 <= inject_Z h)%Q)
            by (change 1%Q with (inject_Z 1); rewrite <- Zle_Qle; lia).
          assert (Ha : (inject_Z w <= inject_Z (2 ^ 31))%Q)
            by (rewrite <- Zle_Qle; lia).
          assert (Hxb : (x * 1 <= x * inject_Z h)%Q).
          { rewrite !(Qmult_comm x). apply Qmult_le_compat_r; lra. }
          apply Qle_lt_trans with (inject_Z (2 ^ 31)); [lra|].
          reflexivity. }
      lra.
Qed.

Lemma aspect_ratio_exact (w h : Z) (r : Q) :
  - 2 ^ 31 <= w < 2 ^ 31 -> - 2 ^ 31 <= h < 2 ^ 31 ->
  fdiv (float_of_int w) (float_of_int h) = Return r ->
  Qle_bool 2 r && Qle_bool r 5 = true ->
  h <> 0 /\ (2 <= inject_Z w / inject_Z h <= 5)%Q.
Proof.
  intros Hw Hh Hdiv Htest.
  assert (Ew : (float_of_int w == inject_Z w)%Q)
    by (apply float_of_int_exact; lia).
  assert (Eh : (float_of_int h == inject_Z h)%Q)
    by (apply float_of_int_exact; lia).
  unfold fdiv in Hdiv.
  destruct (Qeq_bool (float_of_int h) 0) eqn:E0; [discriminate|].
  injection Hdiv as <-.
  assert (Hh0 : h <> 0).
  { intros ->. apply Qeq_bool_neq in E0. apply E0. exact Eh. }
  assert (Hq0 : ~ (inject_Z h == 0)%Q).
  { intros H. apply Hh0. unfold Qeq in H. simpl in H. lia. }
  apply andb_true_iff in Htest. destruct Htest as [H2 H5].
  apply Qle_bool_iff in H2. apply Qle_bool_iff in H5.
  split; [exact Hh0|].
  set (x := (float_of_int w / float_of_int h)%Q) in *.
  assert (Ex : (x == inject_Z w / inject_Z h)%Q)
    by (unfold x; rewrite Ew, Eh; reflexivity).
  rewrite <- Ex.
  assert (Hmul : (x * inject_Z h == inject_Z w)%Q)
    by (rewrite Ex; field; exact Hq0).
  destruct (Z.lt_trichotomy h 0) as [Hneg|[H0|Hpos]]; [|lia|].
  - apply (rn64_ratio_window x (- w) (- h)); try lia; try assumption.
    rewrite !inject_Z_opp, <- Hmul. ring.
  - apply (rn64_ratio_window x w h); try lia; assumption.
Qed.

(** The new dimensions computed by [resize_if_needed], lines 117-119,
    never exceed the bound 1920. *)
Lemma scaled_dimension_bound (d m : Z) (scale : Q) :
  1920 < m < 2 ^ 31 -> 0 <= d <= m ->
  int_truediv 1920 m = Return scale ->
  0 <= int_of_float (fmul (float_of_int d) scale) <= 1920.
Proof.
  intros Hm Hd Hs. unfold int_truediv in Hs.
  destruct (Z.eqb_spec m 0) as [->|_]; [lia|]. injection Hs as <-.
  set (q := (inject_Z 1920 / inject_Z m)%Q).
  assert (HM0 : (0 < inject_Z m)%Q) by (rewrite <- (Zlt_Qlt 0); lia).
  assert (HM1 : (inject_Z m <= inject_Z (2 ^ 31))%Q) by (rewrite <- Zle_Qle; lia).
  assert (HqM : (q * inject_Z m == 1920)%Q) by (unfold q; field; lra).
  assert (Hq0 : (0 < q)%Q).
  { unfold q. apply Qlt_shift_div_l; [exact HM0|]. rewrite Qmult_0_l. reflexivity. }
  assert (Hq21 : (pow2 (-21) <= q)%Q).
  { apply Qnot_lt_le. intros Hc.
    assert (H1 : (q * inject_Z m < pow2 (-21) * inject_Z m)%Q)
      by now apply Qmult_lt_compat_r.
    assert (H2 : (pow2 (-21) * inject_Z m <= pow2 (-21) * inject_Z (2 ^ 31))%Q).
    { rewrite !(Qmult_comm (pow2 (-21))).
      apply Qmult_le_compat_r; [exact HM1|apply Qlt_le_weak, pow2_pos]. }
    assert (H3 : (pow2 (-21) * inject_Z (2 ^ 31) == 1024)%Q) by reflexivity.
    lra. }
  pose proof (binade_ge q (-21) Hq21) as Hb.
  destruct (binade_spec q Hq0) as [Hb1 _].
  assert (Hu : ulp_exp q = binade q + -52) by (unfold ulp_exp; lia).
  pose proof (rn64_pos_upper q Hq0) as Hup.
  rewrite Hu, pow2_add in Hup.
  pose proof (pow2_pos (-52)) as Hc.
  assert (Hc' : (pow2 (-52) <= 1 # 4096)%Q) by (vm_compute; discriminate).
  assert (Hscale : (rn64 q <= q + q * pow2 (-52))%Q).
  { rewrite (rn64_of_pos q Hq0).
    eapply Qle_trans; [exact Hup|].
    apply Qplus_le_r. apply Qmult_le_compat_r; [exact Hb1|lra]. }
  assert (Hs0 : (0 <= rn64 q)%Q) by (apply rn64_nonneg; lra).
  set (s := rn64 q) in *.
  assert (ED : (float_of_int d == inject_Z d)%Q)
    by (apply float_of_int_exact; lia).
  assert (HD0 : (0 <= inject_Z d)%Q) by (rewrite <- (Zle_Qle 0); lia).
  assert (HD1 : (inject_Z d <= inject_Z m)%Q) by (rewrite <- Zle_Qle; lia).
  set (p := (float_of_int d * s)%Q).
  assert (Hp0 : (0 <= p)%Q).
  { unfold p. rewrite ED. now apply Qmult_le_0_compat. }
  assert (Hp1 : (p <= 3841 # 2)%Q).
  { unfold p. rewrite ED.
    apply Qle_trans with (inject_Z m * s)%Q.
    - apply Qmult_le_compat_r; assumption.
    - apply Qle_trans with (inject_Z m * (q + q * pow2 (-52)))%Q.
      + rewrite !(Qmult_comm (inject_Z m)).
        apply Qmult_le_compat_r; [exact Hscale|lra].
      + assert (E : (inject_Z m * (q + q * pow2 (-52))
                     == q * inject_Z m * (1 + pow2 (-52)))%Q) by ring.
        rewrite E, HqM. lra. }
  assert (Hr : (0 <= fmul (float_of_int d) s <= 3841 # 2)%Q).
  { unfold fmul. fold p. split; [now apply rn64_nonneg|].
    destruct (Qlt_le_dec 0 p) as [Hpos|Hz].
    - rewrite (rn64_of_pos p Hpos).
      apply (rn64_pos_le_grid p _ 3841 (-1) Hpos Hp1); [reflexivity|].
      assert (ulp_exp p <= 11 - 53); [|lia].
      apply ulp_exp_le; [exact Hpos| |lia].
      apply Qle_lt_trans with (3841 # 2)%Q; [exact Hp1|reflexivity].
    - rewrite rn64_of_zero by lra. discriminate. }
  destruct Hr as [Hr0 Hr1]. unfold int_of_float.
  apply Qle_bool_iff in Hr0 as Hr0'. rewrite Hr0'.
  split.
  - change 0 with (Qfloor 0). now apply Qfloor_resp_le.
  - change 1920 with (Qfloor (3841 # 2)). now apply Qfloor_resp_le.
Qed.

(** ** PlateDetector.detect_plates_contour_method *)

Lemma firstn_min_length {A : Type} (k : nat) (l : list A) :
  firstn (Nat.min k (length l)) l = firstn k l.
Proof.
  destruct (Nat.le_ge_cases k (length l)) as [H|H].
  - now rewrite Nat.min_l.
  - rewrite Nat.min_r by exact H. rewrite firstn_all.
    symmetry. now apply firstn_all2.
Qed.

Lemma py_slice_prefix {A : Type} (l : list A) (k : Z) :
  0 <= k -> py_slice l 0 k = firstn (Z.to_nat k) l.
Proof.
  intros Hk. unfold py_slice, adjust_index, len.
  destruct (Z.ltb_spec k 0); [lia|].
  change (0 <? 0) with false. cbv iota.
  rewrite (Z.min_l 0) by lia. simpl skipn.
  replace (Z.to_nat (Z.min k (Z.of_nat (length l)) - 0))
    with (Nat.min (Z.to_nat k) (length l)) by lia.
  apply firstn_min_length.
Qed.

Section StronglySortedFacts.
Context {A : Type}.
Variable R : A -> A -> Prop.

Lemma StronglySorted_firstn (n : nat) (l : list A) :
  StronglySorted R l -> StronglySorted R (firstn n l).
Proof.
  revert n. induction l as [|x l IH]; intros [|n] Hs; simpl;
    try constructor.
  - inversion Hs; subst. now apply IH.
  - inversion Hs as [|? ? _ Hx]; subst.
    apply Forall_forall. intros y Hy. rewrite Forall_forall in Hx.
    apply Hx. rewrite <- (firstn_skipn n l). apply in_or_app. now left.
Qed.

Lemma StronglySorted_filter (f : A -> bool) (l : list A) :
  StronglySorted R l -> StronglySorted R (filter f l).
Proof.
  induction l as [|x l IH]; intros Hs; simpl; [constructor|].
  inversion Hs as [|? ? Hl Hx]; subst.
  destruct (f x); [|now apply IH].
  constructor; [now apply IH|].
  apply Forall_forall. intros y Hy. apply filter_In in Hy.
  rewrite Forall_forall in Hx. now apply Hx.
Qed.

Lemma StronglySorted_app_cross (l1 l2 : list A) (a b : A) :
  StronglySorted R (l1 ++ l2) -> In a l1 -> In b l2 -> R a b.
Proof.
  induction l1 as [|x l1 IH]; simpl; intros Hs Ha Hb; [contradiction|].
  inversion Hs as [|? ? Hl Hx]; subst.
  destruct Ha as [<-|Ha].
  - rewrite Forall_forall in Hx. apply Hx, in_or_app. now right.
  - now apply IH.
Qed.
End StronglySortedFacts.

Section ContourMethodFacts.
Context {px : Type}.
Variable self : PlateDetector px.

Lemma contour_step_keeps (acc : list box) (c : contour) (r : list box) :
  contour_step self acc c = Return r ->
  r = if keeps self c then acc ++ [rect_of self c] else acc.
Proof.
  unfold contour_step, keeps, rect_of, approx_of.
  destruct (len _ =? 4); simpl andb; [|now intros [= <-]].
  destruct (boundingRect self _) as [[[x y] w] h].
  destruct (fdiv (float_of_int w) (float_of_int h)) as [ar|e];
    simpl bind; [|discriminate].
  destruct (Qle_bool 2 ar && Qle_bool ar 5); now intros [= <-].
Qed.

Lemma for_each_contour_step (cs : list contour) (acc out : list box) :
  for_each (contour_step self) cs acc = Return out ->
  out = acc ++ map (rect_of self) (filter (keeps self) cs).
Proof.
  revert acc. induction cs as [|c cs IH]; intros acc; simpl.
  - intros H. injection H as <-. now rewrite app_nil_r.
  - destruct (contour_step self acc c) as [r|e] eqn:E; simpl bind;
      [|discriminate].
    apply contour_step_keeps in E. intros H. apply IH in H. subst r out.
    destruct (keeps self c); [|reflexivity].
    now rewrite <- app_assoc.
Qed.

Lemma largest_contours_prefix (img : ndarray px) :
  largest_contours self img =
  firstn 10 (sorted_reverse (contourArea self) (all_contours self img)).
Proof.
  unfold largest_contours. cbv zeta. fold (all_contours self img).
  now rewrite py_slice_prefix by lia.
Qed.

Lemma keeps_sound (c : contour) :
  (let '(_, _, w, h) := rect_of self c in
   - 2 ^ 31 <= w < 2 ^ 31 /\ - 2 ^ 31 <= h < 2 ^ 31) ->
  keeps self c = true ->
  len (approx_of self c) = 4 /\
  let '(_, _, w, h) := rect_of self c in
  h <> 0 /\ (2 <= inject_Z w / inject_Z h <= 5)%Q.
Proof.
  unfold keeps. destruct (rect_of self c) as [[[x y] w] h].
  intros [Hw Hh] Hk. apply andb_true_iff in Hk. destruct Hk as [H4 Hr].
  split; [now apply Z.eqb_eq|].
  destruct (fdiv (float_of_int w) (float_of_int h)) as [ar|e] eqn:Ed;
    [|discriminate].
  exact (aspect_ratio_exact w h ar Hw Hh Ed Hr).
Qed.
End ContourMethodFacts.

Section ContourMethodClaims.
Context {px : Type}.
Variable self : PlateDetector px.
Variable img : ndarray px.

(** The contours the loop visits are the ten first of the contours in
    descending area order: at most ten, and no contour left out has a
    larger area than one of them. *)
Lemma largest_contours_spec :
  exists rest,
    Permutation (all_contours self img) (largest_contours self img ++ rest) /\
    len (largest_contours self img) = Z.min 10 (len (all_contours self img)) /\
    descending (contourArea self) (largest_contours self img) /\
    (forall a b, In a (largest_contours self img) -> In b rest ->
       (contourArea self b <= contourArea self a)%Q).
Proof.
  rewrite largest_contours_prefix.
  set (sorted := sorted_reverse (contourArea self) (all_contours self img)).
  exists (skipn 10 sorted). split; [|split; [|split]].
  - rewrite firstn_skipn. apply sorted_reverse_perm.
  - unfold len. rewrite length_firstn. unfold sorted.
    rewrite sorted_reverse_length. lia.
  - apply StronglySorted_firstn, sorted_reverse_descending.
  - intros a b Ha Hb.
    apply (StronglySorted_app_cross
             (fun a b => (contourArea self b <= contourArea self a)%Q)
             (firstn 10 sorted) (skipn 10 sorted));
      [|exact Ha|exact Hb].
    rewrite firstn_skipn. apply sorted_reverse_descending.
Qed.

(** C8.  Every box returned by [detect_plates_contour_method] is the
    bounding rectangle of the 4-vertex approximation of one of the ten
    largest contours, its width divided by its height lies in [2, 5], and
    the boxes come in descending order of the area of their contours. *)
Theorem detect_plates_contour_method_boxes (plates : list box) :
  Forall (fun c => let '(_, _, w, h) := rect_of self c in
                   - 2 ^ 31 <= w < 2 ^ 31 /\ - 2 ^ 31 <= h < 2 ^ 31)
         (largest_contours self img) ->
  snd (detect_plates_contour_method self img) = Return plates ->
  exists (cs rest : list contour),
    plates = map (rect_of self) cs /\
    Forall (fun c =>
              In c (largest_contours self img) /\
              len (approx_of self c) = 4 /\
              let '(_, _, w, h) := rect_of self c in
              h <> 0 /\ (2 <= inject_Z w / inject_Z h <= 5)%Q) cs /\
    descending (contourArea self) cs /\
    Permutation (all_contours self img) (largest_contours self img ++ rest) /\
    len (largest_contours self img) = Z.min 10 (len (all_contours self img)) /\
    (forall a b, In a (largest_contours self img) -> In b rest ->
       (contourArea self b <= contourArea self a)%Q).
Proof.
  intros Hint Hret. unfold detect_plates_contour_method, called in Hret.
  cbn [snd] in Hret. cbv zeta in Hret.
  apply for_each_contour_step in Hret. simpl app in Hret.
  destruct largest_contours_spec as (rest & Hperm & Hlen & Hd & Hcross).
  exists (filter (keeps self) (largest_contours self img)), rest.
  split; [exact Hret|]. split; [|split; [|split; [|split]]].
  - apply Forall_forall. intros c Hc. apply filter_In in Hc.
    destruct Hc as [Hin Hk]. split; [exact Hin|].
    rewrite Forall_forall in Hint.
    exact (keeps_sound self c (Hint c Hin) Hk).
  - apply StronglySorted_filter. exact Hd.
  - exact Hperm.
  - exact Hlen.
  - exact Hcross.
Qed.

(** The method returns whenever the bounding rectangles it computes have
    a non-zero height. *)
Lemma detect_plates_contour_method_returns :
  Forall (fun c => let '(_, _, _, h) := rect_of self c in
                   h <> 0 /\ Z.abs h < 2 ^ 53)
         (largest_contours self img) ->
  exists plates, snd (detect_plates_contour_method self img) = Return plates.
Proof.
  unfold detect_plates_contour_method, called. cbn [snd]. cbv zeta.
  generalize (@nil box) as acc.
  induction (largest_contours self img) as [|c cs IH]; intros acc Hall.
  - eexists. reflexivity.
  - inversion Hall as [|? ? Hc Hcs]; subst. simpl for_each.
    assert (Hstep : exists r, contour_step self acc c = Return r).
    { unfold contour_step. fold (approx_of self c).
      destruct (len (approx_of self c) =? 4); [|eexists; reflexivity].
      fold (rect_of self c). destruct (rect_of self c) as [[[x y] w] h].
      destruct Hc as [Hh0 Hh]. unfold fdiv.
      destruct (Qeq_bool (float_of_int h) 0) eqn:E.
      - exfalso. apply Qeq_bool_iff in E.
        rewrite (float_of_int_exact h Hh) in E.
        unfold Qeq in E. simpl in E. lia.
      - simpl bind.
        destruct (Qle_bool 2 _ && Qle_bool _ 5); eexists; reflexivity. }
    destruct Hstep as (r & ->). simpl bind. now apply IH.
Qed.
End ContourMethodClaims.

(** ** ImageHandler *)

Section ImageHandlerClaims.
Context {px pil_image : Type}.
Variable lib : ImageHandler px pil_image.

Lemma supported_format_iff (content_type : string) :
  existsb (String.eqb content_type) SUPPORTED_FORMATS = true <->
  In content_type SUPPORTED_FORMATS.
Proof.
  rewrite existsb_exists. split.
  - intros (x & Hin & Heq). apply String.eqb_eq in Heq. now subst.
  - intros Hin. exists content_type. split; [exact Hin|].
    apply String.eqb_refl.
Qed.

(** C7.  A blob longer than 10 MiB is invalid with the size-limit
    message, whatever its content and declared MIME type. *)
Theorem validate_image_size_limit
    (file_content : list Byte.byte) (content_type : string) :
  10 * 1024 * 1024 < len file_content ->
  validate_image lib file_content content_type =
  Return (false, "File size exceeds 10MB limit"%string).
Proof.
  intros H. unfold validate_image.
  destruct (Z.ltb_spec MAX_FILE_SIZE (len file_content)) as [_|Hle];
    [reflexivity|].
  unfold MAX_FILE_SIZE in Hle. lia.
Qed.

(** C10.  [validate_image] always returns a pair and raises nothing; a
    failure of the decoder is reported as invalid with a non-empty
    message; and the result is [(True, "")] exactly when the size check,
    the MIME check and the decode check all pass. *)
Theorem validate_image_total
    (file_content : list Byte.byte) (content_type : string) :
  (exists flag msg,
     validate_image lib file_content content_type = Return (flag, msg)) /\
  (forall e,
     len file_content <= MAX_FILE_SIZE ->
     In content_type SUPPORTED_FORMATS ->
     decode_check lib file_content = Raise e ->
     exists msg,
       validate_image lib file_content content_type = Return (false, msg) /\
       msg <> ""%string) /\
  (validate_image lib file_content content_type = Return (true, ""%string) <->
   len file_content <= MAX_FILE_SIZE /\
   In content_type SUPPORTED_FORMATS /\
   decode_check lib file_content = Return tt).
Proof.
  unfold validate_image, decode_check.
  destruct (Z.ltb_spec MAX_FILE_SIZE (len file_content)) as [Hbig|Hok].
  { split; [eexists _, _; reflexivity|]. split.
    - intros e H. lia.
    - split; [discriminate|]. intros [H _]. lia. }
  destruct (existsb (String.eqb content_type) SUPPORTED_FORMATS) eqn:Em;
    cbn [negb].
  2:{ split; [eexists _, _; reflexivity|]. split.
      - intros e _ Hin. apply supported_format_iff in Hin. congruence.
      - split; [discriminate|]. intros [_ [Hin _]].
        apply supported_format_iff in Hin. congruence. }
  apply supported_format_iff in Em.
  destruct (Image_open lib file_content) as [i|e]; cbn [bind try_except].
  - destruct (Image_verify lib i) as [[]|e]; cbn [bind try_except].
    + split; [eexists _, _; reflexivity|]. split; [discriminate|]. tauto.
    + split; [eexists _, _; reflexivity|]. split.
      * intros e' _ _ _. eexists. split; [reflexivity|discriminate].
      * split; [discriminate|]. intros [_ [_ H]]. discriminate.
  - split; [eexists _, _; reflexivity|]. split.
    + intros e' _ _ _. eexists. split; [reflexivity|discriminate].
    + split; [discriminate|]. intros [_ [_ H]]. discriminate.
Qed.

(** C6.  An image whose larger side is at most 1920 is returned as it
    is, and resizing a second time changes nothing: the second call
    returns what the first returned, or the first call's exception. *)
Theorem resize_if_needed_idempotent (img : ndarray px) :
  (forall src dsize out,
     cv2_resize lib src dsize = Return out ->
     shape0 out = snd dsize /\ shape1 out = fst dsize) ->
  shape0 img < 2 ^ 31 -> shape1 img < 2 ^ 31 ->
  (Z.max (shape0 img) (shape1 img) <= 1920 ->
   resize_if_needed lib img 1920 = Return img) /\
  bind (resize_if_needed lib img 1920)
       (fun img' => resize_if_needed lib img' 1920) =
  resize_if_needed lib img 1920.
Proof.
  intros Hresize H0 H1.
  assert (Hsmall : forall i : ndarray px,
             Z.max (shape0 i) (shape1 i) <= 1920 ->
             resize_if_needed lib i 1920 = Return i).
  { intros i Hi. unfold resize_if_needed.
    destruct (Z.ltb_spec 1920 (Z.max (shape0 i) (shape1 i))); [lia|].
    reflexivity. }
  split; [apply Hsmall|].
  destruct (Z.le_gt_cases (Z.max (shape0 img) (shape1 img)) 1920) as [Hle|Hgt].
  - rewrite (Hsmall img Hle). cbn [bind]. now apply Hsmall.
  - unfold resize_if_needed at 1 3.
    destruct (Z.ltb_spec 1920 (Z.max (shape0 img) (shape1 img))); [|lia].
    set (m := Z.max (shape0 img) (shape1 img)) in *.
    destruct (int_truediv 1920 m) as [scale|e] eqn:Es; cbn [bind];
      [|reflexivity].
    destruct (cv2_resize lib img _) as [out|e] eqn:Er; cbn [bind];
      [|reflexivity].
    apply Hresize in Er. cbn [fst snd] in Er. destruct Er as [Eh Ew].
    assert (Hs0 : 0 <= shape0 img) by apply len_nonneg.
    assert (Hs1 : 0 <= shape1 img) by apply len_nonneg.
    apply Hsmall. rewrite Eh, Ew.
    assert (Hm : 1920 < m < 2 ^ 31) by lia.
    assert (Hw : 0 <= shape1 img <= m) by lia.
    assert (Hh : 0 <= shape0 img <= m) by lia.
    pose proof (scaled_dimension_bound (shape1 img) m scale Hm Hw Es) as Bw.
    pose proof (scaled_dimension_bound (shape0 img) m scale Hm Hh Es) as Bh.
    lia.
Qed.
End ImageHandlerClaims.

(** ** Concrete runs of the detector and of the image handler *)

Lemma black_40x60_rectangular : rectangular black_40x60.
Proof.
  apply Forall_forall. intros row Hrow.
  apply repeat_spec in Hrow. subst row. reflexivity.
Qed.

Example get_best_plate_three_boxes :
  get_best_plate (synthetic three_boxes []) black_40x60 =
  ([Haarcascade],
   Return (Some (repeat (repeat 0%N 47) 15, (2, 30, 40, 10)))).
Proof. vm_compute. reflexivity. Qed.

Example get_best_plate_four_contours :
  get_best_plate (synthetic [] four_contours) black_40x60 =
  ([Haarcascade; ContourMethod],
   Return (Some (repeat (repeat 0%N 55) 25, (0, 20, 50, 15)))).
Proof. vm_compute. reflexivity. Qed.

Example detect_plates_contour_method_four_contours :
  detect_plates_contour_method (synthetic [] four_contours) black_40x60 =
  ([ContourMethod], Return [(0, 20, 50, 15); (0, 0, 30, 10)]).
Proof. vm_compute. reflexivity. Qed.


Lemma get_best_plate_tie_break_witness :
  exists b plate_img,
    snd (get_best_plate (synthetic three_boxes []) black_40x60) =
    Return (Some (plate_img, b)) /\
    earliest_largest three_boxes b /\
    (forall b', earliest_largest three_boxes b' -> b' = b).
Proof.
  apply (get_best_plate_tie_break
           (synthetic three_boxes []) black_40x60 three_boxes).
  - reflexivity.
  - discriminate.
Defined.

Lemma detect_plates_contour_method_boxes_witness :
  exists (cs rest : list contour),
    [(0, 20, 50, 15); (0, 0, 30, 10)] =
    map (rect_of (synthetic [] four_contours)) cs /\
    Forall (fun c =>
              In c (largest_contours (synthetic [] four_contours) black_40x60) /\
              len (approx_of (synthetic [] four_contours) c) = 4 /\
              let '(_, _, w, h) := rect_of (synthetic [] four_contours) c in
              h <> 0 /\ (2 <= inject_Z w / inject_Z h <= 5)%Q) cs /\
    descending (contourArea (synthetic [] four_contours)) cs /\
    Permutation (all_contours (synthetic [] four_contours) black_40x60)
      (largest_contours (synthetic [] four_contours) black_40x60 ++ rest) /\
    len (largest_contours (synthetic [] four_contours) black_40x60) =
    Z.min 10 (len (all_contours (synthetic [] four_contours) black_40x60)) /\
    (forall a b,
       In a (largest_contours (synthetic [] four_contours) black_40x60) ->
       In b rest ->
       (contourArea (synthetic [] four_contours) b
        <= contourArea (synthetic [] four_contours) a)%Q).
Proof.
  apply (detect_plates_contour_method_boxes
           (synthetic [] four_contours) black_40x60).
  - assert (E : largest_contours (synthetic [] four_contours) black_40x60 =
                [ [(0, 20); (49, 20); (49, 34); (0, 34)];
                  [(0, 0); (29, 0); (29, 9); (0, 9)];
                  [(1, 1); (20, 1); (10, 6)];
                  [(5, 5); (14, 5); (14, 14); (5, 14)] ])
      by (vm_compute; reflexivity).
    rewrite E.
    repeat (apply Forall_cons; [vm_compute; repeat split; discriminate|]).
    apply Forall_nil.
  - vm_compute. reflexivity.
Defined.

Example resize_if_needed_black_3x3840 :
  resize_if_needed test_lib black_3x3840 1920 =
  Return (repeat (repeat 0%N 1920) 1).
Proof. vm_compute. reflexivity. Qed.

Lemma test_lib_resize_shape (src : ndarray N) (dsize : Z * Z) (out : ndarray N) :
  cv2_resize test_lib src dsize = Return out ->
  shape0 out = snd dsize /\ shape1 out = fst dsize.
Proof.
  destruct dsize as [w h]. cbn [cv2_resize test_lib fst snd].
  destruct (Z.ltb_spec 0 w) as [Hw|Hw]; [|discriminate].
  destruct (Z.ltb_spec 0 h) as [Hh|Hh]; [|discriminate].
  cbn [andb]. intros H. injection H as <-.
  unfold shape0, shape1, len. rewrite repeat_length.
  split; [lia|].
  destruct (Z.to_nat h) as [|n] eqn:E; [lia|].
  cbn [repeat hd]. rewrite repeat_length. lia.
Qed.

Lemma resize_if_needed_idempotent_witness :
  (Z.max (shape0 black_3x3840) (shape1 black_3x3840) <= 1920 ->
   resize_if_needed test_lib black_3x3840 1920 = Return black_3x3840) /\
  bind (resize_if_needed test_lib black_3x3840 1920)
       (fun img' => resize_if_needed test_lib img' 1920) =
  resize_if_needed test_lib black_3x3840 1920.
Proof.
  apply (resize_if_needed_idempotent test_lib black_3x3840).
  - exact test_lib_resize_shape.
  - vm_compute. reflexivity.
  - vm_compute. reflexivity.
Defined.

Lemma validate_image_size_limit_witness :
  validate_image test_lib oversized_blob "image/png" =
  Return (false, "File size exceeds 10MB limit"%string).
Proof.
  apply (validate_image_size_limit test_lib oversized_blob "image/png").
  unfold oversized_blob, len. rewrite repeat_length, Z2Nat.id; lia.
Defined.

Example validate_image_accepts :
  validate_image test_lib [Byte.x89; Byte.x50] "image/png" =
  Return (true, ""%string).
Proof. reflexivity. Qed.

Example validate_image_rejects_gif :
  validate_image test_lib [Byte.x47; Byte.x49] "image/gif" =
  Return (false,
          "Unsupported format. Use: image/jpeg, image/jpg, image/png, image/webp"%string).
Proof. reflexivity. Qed.

Example validate_image_rejects_undecodable :
  validate_image test_lib [] "image/png" =
  Return (false, "Invalid image file: cannot identify image file"%string).
Proof. reflexivity. Qed.

(* ================================================================== *)
(** * Further properties of the code *)
(* ================================================================== *)

(** ** OCRProcessor: the other methods *)

Lemma len_app {A : Type} (l1 l2 : list A) : len (l1 ++ l2) = len l1 + len l2.
Proof. unfold len. rewrite length_app. lia. Qed.

(** The joined string around its [i]-th item: in front, the earlier items
    each followed by the separator; behind, the later items each preceded
    by it. *)
Lemma str_join_segment (sep : str) (items : list str) (i : nat) (t : str) :
  nth_error items i = Some t ->
  str_join sep items =
  flat_map (fun x => x ++ sep) (firstn i items) ++ t ++
  flat_map (fun x => sep ++ x) (skipn (S i) items).
Proof.
  revert i. induction items as [|x rest IH]; intros i Hi.
  - destruct i; discriminate.
  - destruct i as [|i]; cbn [nth_error] in Hi.
    + injection Hi as ->. cbn [firstn skipn flat_map app]. clear IH.
      revert t. induction rest as [|y rest' IHr]; intros t.
      * simpl. now rewrite app_nil_r.
      * change (str_join sep (t :: y :: rest'))
          with (t ++ sep ++ str_join sep (y :: rest')).
        rewrite IHr. cbn [flat_map]. now rewrite <- app_assoc.
    + destruct rest as [|y rest']; [destruct i; discriminate|].
      change (str_join sep (x :: y :: rest'))
        with (x ++ sep ++ str_join sep (y :: rest')).
      rewrite (IH i Hi). cbn [firstn skipn flat_map].
      now rewrite <- !app_assoc.
Qed.

Lemma join_offset_len (sep : str) (items : list str) (i : nat) :
  len (flat_map (fun x => x ++ sep) (firstn i items)) = join_offset sep items i.
Proof.
  unfold join_offset. induction (firstn i items) as [|x l IH]; [reflexivity|].
  cbn [flat_map fold_right]. rewrite !len_app, IH. lia.
Qed.

Lemma upper_AZ09 (up : char -> list char) (s : str) :
  Forall (fun c => in_AZ09 c = true) s -> upper up s = s.
Proof.
  induction 1 as [|c s Hc _ IH]; [reflexivity|].
  unfold upper in *. cbn [flat_map]. rewrite IH.
  unfold upper_char, in_AZ09 in *.
  destruct (N.ltb_spec c 128) as [_|H128];
    [|exfalso; apply orb_true_iff in Hc;
      destruct Hc as [Hc|Hc]; apply andb_true_iff in Hc;
      destruct Hc as [_ Hc]; apply N.leb_le in Hc; lia].
  destruct ((97 <=? c) && (c <=? 122))%N eqn:E; [|reflexivity].
  exfalso. apply andb_true_iff in E. destruct E as [E1 E2].
  apply N.leb_le in E1.
  apply orb_true_iff in Hc. destruct Hc as [Hc|Hc];
    apply andb_true_iff in Hc; destruct Hc as [_ Hc];
    apply N.leb_le in Hc; lia.
Qed.

Lemma AZ09_not_space (c : char) : in_AZ09 c = true -> isspace c = false.
Proof.
  unfold in_AZ09, isspace. intros Hc.
  assert (H : (48 <= c <= 90)%N).
  { apply orb_true_iff in Hc. destruct Hc as [Hc|Hc];
      apply andb_true_iff in Hc; destruct Hc as [H1 H2];
      apply N.leb_le in H1; apply N.leb_le in H2; lia. }
  rewrite (proj2 (N.leb_gt c 13)), (proj2 (N.leb_gt c 32)),
    (proj2 (N.leb_gt 8192 c)) by lia.
  rewrite !(proj2 (N.eqb_neq c _)) by lia.
  now rewrite !andb_false_r.
Qed.

Section OCRProcessorMore.
Context {ndarray bbox : Type}.
Variable self : OCRProcessor ndarray bbox.
Variable img : ndarray.

(** X1.  When some candidate survives the length filter, the text that
    [extract_plate_number] returns is made of the characters A-Z and 0-9
    only. *)
Theorem extract_plate_number_alphanumeric (t : str) (c : Q) :
  Exists (fun item => survives self item = true) (extract_text self img) ->
  extract_plate_number self img = Some (t, c) ->
  Forall (fun ch => in_AZ09 ch = true) t.
Proof.
  intros Hex Hres.
  pose proof (extract_plate_number_cases self img) as Hc. cbv zeta in Hc.
  apply exists_survivor in Hex.
  destruct (extract_text self img) as [|r rest]; [now rewrite Hc in Hres|].
  destruct (survivors self (r :: rest)) as [|s srest] eqn:Es; [congruence|].
  rewrite Hc in Hres. injection Hres as Hm.
  destruct (max_from_is_first_max snd s srest) as (i & Hi & _).
  apply nth_error_In in Hi. rewrite Hm, <- Es in Hi.
  unfold survivors in Hi. apply in_map_iff in Hi.
  destruct Hi as (item & Heq & _). injection Heq as <- _.
  unfold cleaned_of, re_sub_not_AZ09. apply Forall_forall.
  intros ch Hch. now apply filter_In in Hch.
Qed.

(** X3.  [extract_all_text] holds every raw text, in the order of the
    recognition engine: in front of the [i]-th text stand the texts before
    it, each followed by one space (U+0020), and behind it the texts after
    it, each preceded by one space.  The [i]-th text so starts at the
    offset that the earlier texts and their spaces add up to. *)
Theorem extract_all_text_segments (i : nat) (text : str) (conf : Q) :
  nth_error (extract_text self img) i = Some (text, conf) ->
  let texts := map fst (extract_text self img) in
  exists pre post,
    extract_all_text self img = pre ++ text ++ post /\
    pre = flat_map (fun t => t ++ [32%N]) (firstn i texts) /\
    post = flat_map (fun t => 32%N :: t) (skipn (S i) texts) /\
    len pre = join_offset [32%N] texts i.
Proof.
  intros Hi texts. subst texts. unfold extract_all_text. cbv zeta.
  replace (map (fun '(text0, _) => text0) (extract_text self img))
    with (map fst (extract_text self img))
    by (apply map_ext; now intros [a b]).
  eexists _, _. split; [|split; [reflexivity|split; [reflexivity|]]].
  - apply (str_join_segment (str_of " ")).
    rewrite nth_error_map, Hi. reflexivity.
  - apply join_offset_len.
Qed.
End OCRProcessorMore.

(** X2.  [format_plate_number] returns a string of characters A-Z and 0-9
    unchanged: it does not alter a plate that [extract_plate_number] has
    cleaned. *)
Theorem format_plate_number_fixes_cleaned
    (toupper_full : char -> list char) (plate_text : str) :
  Forall (fun ch => in_AZ09 ch = true) plate_text ->
  format_plate_number toupper_full plate_text = plate_text.
Proof.
  intros H. unfold format_plate_number, re_sub_spaces.
  rewrite (upper_AZ09 _ _ H).
  induction H as [|c s Hc _ IH]; [reflexivity|].
  cbn [filter]. rewrite (AZ09_not_space c Hc). cbn [negb]. now rewrite IH.
Qed.


(** ** PlateDetector: further properties *)

Section PlateDetectorMore.
Context {px : Type}.
Variable self : PlateDetector px.
Variable img : ndarray px.

(** X4.  [detect_plates_contour_method] never returns more than ten
    boxes. *)
Theorem detect_plates_contour_method_at_most_ten (plates : list box) :
  snd (detect_plates_contour_method self img) = Return plates ->
  len plates <= 10.
Proof.
  intros Hret. unfold detect_plates_contour_method, called in Hret.
  cbn [snd] in Hret. cbv zeta in Hret.
  apply for_each_contour_step in Hret. simpl app in Hret. subst plates.
  unfold len. rewrite length_map.
  pose proof (filter_length_le (keeps self) (largest_contours self img)) as Hf.
  rewrite largest_contours_prefix in *.
  rewrite length_firstn in Hf. lia.
Qed.

(** X5.  When the boxes of the detection path that ran lie inside the
    image, the crop that [get_best_plate] returns contains the whole
    reported box: the box starts [min(y, 5)] rows and [min(x, 5)] columns
    into the crop, and the crop is at most 10 rows and 10 columns larger
    than the box. *)
Theorem get_best_plate_crop_contains_box (plates : list box) :
  boxes_used self img = Return plates ->
  plates <> [] ->
  rectangular img ->
  Forall (box_inside img) plates ->
  exists x y w h plate_img,
    snd (get_best_plate self img) = Return (Some (plate_img, (x, y, w, h))) /\
    h <= len plate_img <= h + 10 /\
    Forall (fun row => w <= len row <= w + 10) plate_img /\
    forall r c, 0 <= r < h -> 0 <= c < w ->
      pixel_at plate_img (Z.min y 5 + r) (Z.min x 5 + c) =
      pixel_at img (y + r) (x + c).
Proof.
  intros Hused Hne Hrect Hin.
  destruct (crop_largest_selects img plates Hne)
    as (x & y & w & h & Hmax & Hcrop).
  exists x, y, w, h. eexists. split.
  { rewrite get_best_plate_result, Hused.
    destruct plates; [congruence|exact Hcrop]. }
  assert (Hbox : box_inside img (x, y, w, h)).
  { destruct Hmax as (i & Hi & _). apply nth_error_In in Hi.
    rewrite Forall_forall in Hin. exact (Hin _ Hi). }
  cbn [box_inside] in Hbox.
  destruct Hbox as (Hx & Hy & Hw & Hh & Hxw & Hyh).
  destruct (slice2_window img (Z.max 0 (y - 5))
              (Z.min (shape0 img) (y + h + 5)) (Z.max 0 (x - 5))
              (Z.min (shape1 img) (x + w + 5)) Hrect)
    as (Hrows & Hcols & Hpix); try lia.
  split; [lia|]. split.
  - eapply Forall_impl; [|exact Hcols]. intros row Hrow. simpl in Hrow. lia.
  - intros r c Hr Hc.
    rewrite Hpix by lia. f_equal; lia.
Qed.
End PlateDetectorMore.

(** ** ImageHandler.validate_image: the MIME check *)

(** X6.  A blob within the size limit whose declared MIME type is not in
    the allow-list is invalid with the unsupported-format message; the
    decoder is not consulted, so this holds also when the bytes would
    decode. *)
Theorem validate_image_unsupported_format {px pil_image : Type}
    (lib : ImageHandler px pil_image)
    (file_content : list Byte.byte) (content_type : string) :
  len file_content <= MAX_FILE_SIZE ->
  ~ In content_type SUPPORTED_FORMATS ->
  validate_image lib file_content content_type =
  Return (false,
          ("Unsupported format. Use: "
           ++ String.concat ", " (formats_in_set_order lib))%string).
Proof.
  intros Hsize Hmime. unfold validate_image.
  destruct (Z.ltb_spec MAX_FILE_SIZE (len file_content)); [lia|].
  destruct (existsb (String.eqb content_type) SUPPORTED_FORMATS) eqn:E;
    [|reflexivity].
  exfalso. apply Hmime. now apply supported_format_iff in E.
Qed.

(** ** ImageHandler.resize_if_needed: the computed size *)

Lemma round_half_even_lower (y : Q) :
  (y - 1 <= inject_Z (round_half_even y))%Q.
Proof.
  pose proof (Qlt_floor y) as Hf. rewrite inject_Z_plus in Hf.
  change (inject_Z 1) with 1%Q in Hf.
  destruct (round_half_even_cases y) as [->|[-> _]].
  - lra.
  - rewrite inject_Z_plus. change (inject_Z 1) with 1%Q. lra.
Qed.

Lemma rn64_pos_lower (q : Q) :
  (0 < q)%Q -> (q - pow2 (ulp_exp q) <= rn64_pos q)%Q.
Proof.
  intros Hq. pose proof (pow2_pos (ulp_exp q)) as Hp. unfold rn64_pos.
  apply Qle_trans with ((q / pow2 (ulp_exp q) - 1) * pow2 (ulp_exp q))%Q.
  - apply Qle_lteq. right. field. lra.
  - apply Qmult_le_compat_r; [apply round_half_even_lower|lra].
Qed.

(** The scale factor of line 117 lies within a relative distance [2^-52]
    of the exact quotient. *)
Lemma scale_bounds (m : Z) (scale : Q) :
  1920 < m < 2 ^ 31 ->
  int_truediv 1920 m = Return scale ->
  exists q : Q,
    (q * inject_Z m == 1920)%Q /\ (0 < q)%Q /\
    (q - q * pow2 (-52) <= scale <= q + q * pow2 (-52))%Q.
Proof.
  intros Hm Hs. unfold int_truediv in Hs.
  destruct (Z.eqb_spec m 0) as [->|_]; [lia|]. injection Hs as <-.
  set (q := (inject_Z 1920 / inject_Z m)%Q).
  assert (HM0 : (0 < inject_Z m)%Q) by (rewrite <- (Zlt_Qlt 0); lia).
  assert (HM1 : (inject_Z m <= inject_Z (2 ^ 31))%Q) by (rewrite <- Zle_Qle; lia).
  assert (HqM : (q * inject_Z m == 1920)%Q) by (unfold q; field; lra).
  assert (Hq0 : (0 < q)%Q).
  { unfold q. apply Qlt_shift_div_l; [exact HM0|]. rewrite Qmult_0_l. reflexivity. }
  assert (Hq21 : (pow2 (-21) <= q)%Q).
  { apply Qnot_lt_le. intros Hc.
    assert (H1 : (q * inject_Z m < pow2 (-21) * inject_Z m)%Q)
      by now apply Qmult_lt_compat_r.
    assert (H2 : (pow2 (-21) * inject_Z m <= pow2 (-21) * inject_Z (2 ^ 31))%Q).
    { rewrite !(Qmult_comm (pow2 (-21))).
      apply Qmult_le_compat_r; [exact HM1|apply Qlt_le_weak, pow2_pos]. }
    assert (H3 : (pow2 (-21) * inject_Z (2 ^ 31) == 1024)%Q) by reflexivity.
    lra. }
  pose proof (binade_ge q (-21) Hq21) as Hb.
  destruct (binade_spec q Hq0) as [Hb1 _].
  assert (Hu : ulp_exp q = binade q + -52) by (unfold ulp_exp; lia).
  pose proof (rn64_pos_upper q Hq0) as Hup.
  pose proof (rn64_pos_lower q Hq0) as Hlo.
  rewrite Hu, pow2_add in Hup, Hlo.
  pose proof (pow2_pos (-52)) as Hc.
  assert (Hulp : (pow2 (binade q) * pow2 (-52) <= q * pow2 (-52))%Q)
    by (apply Qmult_le_compat_r; [exact Hb1|lra]).
  exists q. split; [exact HqM|]. split; [exact Hq0|].
  rewrite (rn64_of_pos q Hq0). split; lra.
Qed.

(** The product of line 118 or 119 before it is truncated. *)
Lemma scaled_product_bounds (d m : Z) (scale : Q) :
  1920 < m < 2 ^ 31 -> 0 <= d <= m ->
  int_truediv 1920 m = Return scale ->
  exists q : Q,
    (q * inject_Z m == 1920)%Q /\ (0 < q)%Q /\ (0 <= scale)%Q /\
    (inject_Z d * (q - q * pow2 (-52)) <= float_of_int d * scale
     <= inject_Z d * (q + q * pow2 (-52)))%Q.
Proof.
  intros Hm Hd Hs.
  destruct (scale_bounds m scale Hm Hs) as (q & HqM & Hq0 & Hlo & Hhi).
  pose proof (pow2_pos (-52)) as Hc.
  assert (Hc' : (pow2 (-52) <= 1 # 4096)%Q) by (vm_compute; discriminate).
  assert (Hq52 : (0 <= q * pow2 (-52) <= q * (1 # 4096))%Q).
  { split; [apply Qmult_le_0_compat; lra|].
    rewrite !(Qmult_comm q). apply Qmult_le_compat_r; lra. }
  assert (Hs0 : (0 <= scale)%Q) by lra.
  assert (ED : (float_of_int d == inject_Z d)%Q)
    by (apply float_of_int_exact; lia).
  assert (HD0 : (0 <= inject_Z d)%Q) by (rewrite <- (Zle_Qle 0); lia).
  exists q. split; [exact HqM|]. split; [exact Hq0|]. split; [exact Hs0|].
  rewrite ED, !(Qmult_comm (inject_Z d)).
  split; apply Qmult_le_compat_r; assumption.
Qed.

Lemma rn64_le_grid (p t : Q) (k E : Z) :
  (0 <= p)%Q -> (p <= t)%Q -> (t == inject_Z k * pow2 E)%Q ->
  ((0 < p)%Q -> ulp_exp p <= E) -> (rn64 p <= t)%Q.
Proof.
  intros Hp0 Hpt Ht He.
  destruct (Qlt_le_dec 0 p) as [Hpos|Hz].
  - rewrite (rn64_of_pos p Hpos).
    apply (rn64_pos_le_grid p t k E Hpos Hpt Ht). now apply He.
  - rewrite rn64_of_zero by lra. lra.
Qed.

(** A side of the image never grows, and the larger side becomes 1919 or
    1920. *)
Lemma scaled_dimension_le (d m : Z) (scale : Q) :
  1920 < m < 2 ^ 31 -> 0 <= d <= m ->
  int_truediv 1920 m = Return scale ->
  int_of_float (fmul (float_of_int d) scale) <= d.
Proof.
  intros Hm Hd Hs.
  destruct (scaled_product_bounds d m scale Hm Hd Hs)
    as (q & HqM & Hq0 & Hs0 & Hlo & Hhi).
  set (p := (float_of_int d * scale)%Q) in *.
  pose proof (pow2_pos (-52)) as Hc.
  assert (Hc' : (pow2 (-52) <= 1 # 4096)%Q) by (vm_compute; discriminate).
  assert (HM : (1921 <= inject_Z m)%Q)
    by (change 1921%Q with (inject_Z 1921); rewrite <- Zle_Qle; lia).
  assert (HD0 : (0 <= inject_Z d)%Q) by (rewrite <- (Zle_Qle 0); lia).
  assert (ED : (float_of_int d == inject_Z d)%Q)
    by (apply float_of_int_exact; lia).
  assert (Hq1 : (q + q * pow2 (-52) <= 1)%Q).
  { assert (H1 : (q * 1921 <= q * inject_Z m)%Q).
    { rewrite !(Qmult_comm q). apply Qmult_le_compat_r; lra. }
    assert (H2 : (q * pow2 (-52) <= q * (1 # 4096))%Q).
    { rewrite !(Qmult_comm q). apply Qmult_le_compat_r; lra. }
    lra. }
  assert (Hp0 : (0 <= p)%Q).
  { unfold p. rewrite ED. now apply Qmult_le_0_compat. }
  assert (Hpd : (p <= inject_Z d)%Q).
  { eapply Qle_trans; [exact Hhi|].
    rewrite <- (Qmult_1_r (inject_Z d)) at 2.
    rewrite !(Qmult_comm (inject_Z d)). apply Qmult_le_compat_r; assumption. }
  assert (Hr : (rn64 p <= inject_Z d)%Q).
  { apply (rn64_le_grid p _ d 0 Hp0 Hpd).
    - unfold pow2. simpl. ring.
    - intros Hpos. assert (ulp_exp p <= 31 - 53); [|lia].
      apply ulp_exp_le; [exact Hpos| |lia].
      apply Qle_lt_trans with (inject_Z d); [exact Hpd|].
      apply inject_Z_lt_pow2; lia. }
  assert (Hr0 : (0 <= rn64 p)%Q) by now apply rn64_nonneg.
  unfold fmul. fold p. unfold int_of_float.
  apply Qle_bool_iff in Hr0 as Hr0'. rewrite Hr0'.
  rewrite <- (Qfloor_Z d). now apply Qfloor_resp_le.
Qed.

Lemma scaled_dimension_larger (m : Z) (scale : Q) :
  1920 < m < 2 ^ 31 ->
  int_truediv 1920 m = Return scale ->
  1919 <= int_of_float (fmul (float_of_int m) scale).
Proof.
  intros Hm Hs.
  assert (Hd : 0 <= m <= m) by lia.
  destruct (scaled_product_bounds m m scale Hm Hd Hs)
    as (q & HqM & Hq0 & Hs0 & Hlo & Hhi).
  set (p := (float_of_int m * scale)%Q) in *.
  pose proof (pow2_pos (-52)) as Hc.
  assert (Hc' : (pow2 (-52) <= 1 # 4096)%Q) by (vm_compute; discriminate).
  assert (E1 : (inject_Z m * (q - q * pow2 (-52))
                == q * inject_Z m * (1 - pow2 (-52)))%Q) by ring.
  assert (E2 : (inject_Z m * (q + q * pow2 (-52))
                == q * inject_Z m * (1 + pow2 (-52)))%Q) by ring.
  rewrite E1, HqM in Hlo. rewrite E2, HqM in Hhi.
  assert (Hp : (3839 # 2 <= p <= 3841 # 2)%Q) by lra.
  assert (Hpos : (0 < p)%Q) by lra.
  assert (Hr : (3839 # 2 <= rn64 p)%Q).
  { rewrite (rn64_of_pos p Hpos).
    apply (rn64_pos_ge_grid p _ 3839 (-1) Hpos); [lra|reflexivity|].
    assert (ulp_exp p <= 11 - 53); [|lia].
    apply ulp_exp_le; [exact Hpos| |lia].
    apply Qle_lt_trans with (3841 # 2)%Q; [lra|reflexivity]. }
  unfold fmul. fold p. unfold int_of_float.
  assert (Hr0 : (0 <= rn64 p)%Q) by lra.
  apply Qle_bool_iff in Hr0. rewrite Hr0.
  change 1919 with (Qfloor (3839 # 2)). now apply Qfloor_resp_le.
Qed.

(** A side shorter than 1/1920 of the larger side is scaled to 0. *)
Lemma scaled_dimension_zero (d m : Z) (scale : Q) :
  1920 < m < 2 ^ 31 -> 0 <= d -> d * 1920 < m ->
  int_truediv 1920 m = Return scale ->
  int_of_float (fmul (float_of_int d) scale) = 0.
Proof.
  intros Hm Hd0 Hdm Hs.
  assert (Hd : 0 <= d <= m) by lia.
  destruct (scaled_product_bounds d m scale Hm Hd Hs)
    as (q & HqM & Hq0 & Hs0 & Hlo & Hhi).
  set (p := (float_of_int d * scale)%Q) in *.
  pose proof (pow2_pos (-52)) as Hc.
  assert (HM0 : (0 < inject_Z m)%Q) by (rewrite <- (Zlt_Qlt 0); lia).
  assert (HD0 : (0 <= inject_Z d)%Q) by (rewrite <- (Zle_Qle 0); lia).
  assert (ED : (float_of_int d == inject_Z d)%Q)
    by (apply float_of_int_exact; lia).
  assert (Hp0 : (0 <= p)%Q).
  { unfold p. rewrite ED. now apply Qmult_le_0_compat. }
  (* the exact ratio d * 1920 / m is at most 1 - 2^-31 *)
  set (x := (inject_Z d * q)%Q).
  assert (Hxm : (x * inject_Z m == inject_Z (d * 1920))%Q).
  { unfold x. rewrite inject_Z_mult.
    assert (E : (inject_Z d * q * inject_Z m
                 == inject_Z d * (q * inject_Z m))%Q) by ring.
    rewrite E, HqM. reflexivity. }
  assert (Hx1 : (x < inject_Z 1)%Q).
  { apply Qnot_le_lt. intros Hge.
    assert (H1 : (inject_Z 1 * inject_Z m <= x * inject_Z m)%Q)
      by (apply Qmult_le_compat_r; [exact Hge|lra]).
    rewrite Hxm, <- inject_Z_mult, <- Zle_Qle in H1. lia. }
  assert (Hm31 : 0 < m <= 2 ^ 31) by lia.
  pose proof (ratio_gap_below x (d * 1920) m 1 Hm31 Hxm Hx1) as Hgap.
  change (inject_Z 1) with 1%Q in Hgap.
  assert (Hx0 : (0 <= x)%Q) by (unfold x; apply Qmult_le_0_compat; lra).
  assert (E2 : (inject_Z d * (q + q * pow2 (-52))
                == x * (1 + pow2 (-52)))%Q) by (unfold x; ring).
  rewrite E2 in Hhi.
  pose proof (pow2_pos (-31)) as Hc31p.
  assert (Hxc : (x * pow2 (-52) <= 1 * pow2 (-52))%Q)
    by (apply Qmult_le_compat_r; lra).
  assert (Hc52 : (pow2 (-52) <= pow2 (-32))%Q) by (apply pow2_le; lia).
  assert (Hc31 : (pow2 (-31) == pow2 (-32) + pow2 (-32))%Q) by reflexivity.
  assert (E3 : (x * (1 + pow2 (-52)) == x + x * pow2 (-52))%Q) by ring.
  rewrite E3 in Hhi. rewrite Qmult_1_l in Hxc.
  assert (Hpt : (p <= 1 - pow2 (-32))%Q).
  { lra. }
  assert (Hr : (rn64 p <= 1 - pow2 (-32))%Q).
  { apply (rn64_le_grid p _ (2 ^ 32 - 1) (-32) Hp0 Hpt); [reflexivity|].
    intros Hpos. assert (ulp_exp p <= 0 - 53); [|lia].
    apply ulp_exp_le; [exact Hpos| |lia].
    pose proof (pow2_pos (-32)).
    apply Qle_lt_trans with (1 - pow2 (-32))%Q; [exact Hpt|].
    change (pow2 0) with 1%Q. lra. }
  assert (Hr0 : (0 <= rn64 p)%Q) by now apply rn64_nonneg.
  unfold fmul. fold p. unfold int_of_float.
  apply Qle_bool_iff in Hr0 as Hr0'. rewrite Hr0'.
  pose proof (pow2_pos (-32)) as Hc32.
  assert (H0 : Qfloor 0 <= Qfloor (rn64 p)) by now apply Qfloor_resp_le.
  assert (H1 : Qfloor (rn64 p) < 1).
  { rewrite Zlt_Qlt. pose proof (Qfloor_le (rn64 p)). 
    change (inject_Z 1) with 1%Q. lra. }
  change (Qfloor 0) with 0 in H0. lia.
Qed.

Section ResizeSize.
Context {px pil_image : Type}.
Variable lib : ImageHandler px pil_image.

(** X7.  When [resize_if_needed] resizes an image and [cv2.resize] returns
    the size it was asked for, no side grows and the larger side of the
    result is 1919 or 1920. *)
Theorem resize_if_needed_output_size (img out : ndarray px) :
  (forall src dsize res,
     cv2_resize lib src dsize = Return res ->
     shape0 res = snd dsize /\ shape1 res = fst dsize) ->
  1920 < Z.max (shape0 img) (shape1 img) ->
  shape0 img < 2 ^ 31 -> shape1 img < 2 ^ 31 ->
  resize_if_needed lib img 1920 = Return out ->
  1919 <= Z.max (shape0 out) (shape1 out) <= 1920 /\
  shape0 out <= shape0 img /\ shape1 out <= shape1 img.
Proof.
  intros Hresize Hbig H0 H1 Hres. unfold resize_if_needed in Hres.
  destruct (Z.ltb_spec 1920 (Z.max (shape0 img) (shape1 img))); [|lia].
  set (m := Z.max (shape0 img) (shape1 img)) in *.
  destruct (int_truediv 1920 m) as [scale|e] eqn:Es; cbn [bind] in Hres;
    [|discriminate].
  apply Hresize in Hres. cbn [fst snd] in Hres. destruct Hres as [Eh Ew].
  assert (Hs0 : 0 <= shape0 img) by apply len_nonneg.
  assert (Hs1 : 0 <= shape1 img) by apply len_nonneg.
  assert (Hm : 1920 < m < 2 ^ 31) by lia.
  assert (Hw : 0 <= shape1 img <= m) by lia.
  assert (Hh : 0 <= shape0 img <= m) by lia.
  pose proof (scaled_dimension_bound (shape1 img) m scale Hm Hw Es) as Bw.
  pose proof (scaled_dimension_bound (shape0 img) m scale Hm Hh Es) as Bh.
  pose proof (scaled_dimension_le (shape1 img) m scale Hm Hw Es) as Lw.
  pose proof (scaled_dimension_le (shape0 img) m scale Hm Hh Es) as Lh.
  pose proof (scaled_dimension_larger m scale Hm Es) as Lm.
  rewrite Eh, Ew. split; [|lia].
  split; [|lia].
  destruct (Z.max_spec (shape0 img) (shape1 img)) as [[_ E]|[_ E]];
    fold m in E; rewrite <- E; lia.
Qed.

(** X8.  When the shorter side of an oversized image is less than 1/1920
    of the longer side, [resize_if_needed] asks [cv2.resize] for a size
    with a zero in it. *)
Theorem resize_if_needed_zero_size (img : ndarray px) :
  1920 < Z.max (shape0 img) (shape1 img) ->
  shape0 img < 2 ^ 31 -> shape1 img < 2 ^ 31 ->
  Z.min (shape0 img) (shape1 img) * 1920 < Z.max (shape0 img) (shape1 img) ->
  exists new_width new_height,
    resize_if_needed lib img 1920 =
    cv2_resize lib img (new_width, new_height) /\
    (new_width = 0 \/ new_height = 0).
Proof.
  intros Hbig H0 H1 Hthin. unfold resize_if_needed.
  destruct (Z.ltb_spec 1920 (Z.max (shape0 img) (shape1 img))); [|lia].
  set (m := Z.max (shape0 img) (shape1 img)) in *.
  assert (Hs0 : 0 <= shape0 img) by apply len_nonneg.
  assert (Hs1 : 0 <= shape1 img) by apply len_nonneg.
  assert (Hm : 1920 < m < 2 ^ 31) by lia.
  destruct (int_truediv 1920 m) as [scale|e] eqn:Es.
  2:{ unfold int_truediv in Es. destruct (Z.eqb_spec m 0); [lia|discriminate]. }
  cbn [bind]. eexists _, _. split; [reflexivity|].
  destruct (Z.min_spec (shape0 img) (shape1 img)) as [[_ E]|[_ E]];
    rewrite E in Hthin.
  - right. now apply (scaled_dimension_zero (shape0 img) m scale).
  - left. now apply (scaled_dimension_zero (shape1 img) m scale).
Qed.
End ResizeSize.

(** ** ImageHandler.cv2_to_base64 *)

(** Induction on a list of bytes by groups of three. *)
Lemma list_ind3 {A : Type} (P : list A -> Prop) :
  P [] -> (forall a, P [a]) -> (forall a b, P [a; b]) ->
  (forall a b c l, P l -> P (a :: b :: c :: l)) ->
  forall l, P l.
Proof.
  intros H0 H1 H2 H3. fix IH 1.
  intros [|a [|b [|c l]]]; [exact H0|apply H1|apply H2|apply H3, IH].
Qed.

Lemma b64encode_length (b : list Byte.byte) :
  Z.of_nat (String.length (b64encode b)) = 4 * ((len b + 2) / 3).
Proof.
  induction b as [| | |b0 b1 b2 rest IH] using list_ind3;
    try reflexivity.
  change (String.length (b64encode (b0 :: b1 :: b2 :: rest)))
    with (S (S (S (S (String.length (b64encode rest)))))).
  unfold len in *. cbn [length].
  replace (Z.of_nat (S (S (S (length rest)))) + 2)
    with (Z.of_nat (length rest) + 2 + 1 * 3) by lia.
  rewrite Z.div_add by lia. lia.
Qed.

Lemma b64_digits_checked :
  forallb (fun k => let n := N.of_nat k in
                    (b64_value (b64_digit n) =? n)%N
                    && is_b64_char (b64_digit n)
                    && negb (Ascii.eqb (b64_digit n) "="))
          (seq 0 64) = true.
Proof. vm_compute. reflexivity. Qed.

Lemma b64_digit_facts (n : N) :
  (n < 64)%N ->
  b64_value (b64_digit n) = n /\
  is_b64_char (b64_digit n) = true /\
  b64_digit n <> "="%char.
Proof.
  intros Hn. pose proof b64_digits_checked as H.
  rewrite forallb_forall in H. specialize (H (N.to_nat n)).
  rewrite N2Nat.id in H. cbv zeta in H.
  assert (Hin : In (N.to_nat n) (seq 0 64)) by (apply in_seq; lia).
  apply H in Hin. apply andb_true_iff in Hin. destruct Hin as [Hin H3].
  apply andb_true_iff in Hin. destruct Hin as [H1 H2].
  apply N.eqb_eq in H1. split; [exact H1|]. split; [exact H2|].
  intros E. rewrite E in H3. discriminate.
Qed.

Lemma b64_digit_inj (n m : N) :
  (n < 64)%N -> (m < 64)%N -> b64_digit n = b64_digit m -> n = m.
Proof.
  intros Hn Hm E.
  destruct (b64_digit_facts n Hn) as [<- _].
  destruct (b64_digit_facts m Hm) as [<- _]. now rewrite E.
Qed.

Lemma byte_bound (b : Byte.byte) : (Byte.to_N b < 256)%N.
Proof. pose proof (Byte.to_N_bounded b). lia. Qed.

Lemma byte_to_N_inj (a b : Byte.byte) : Byte.to_N a = Byte.to_N b -> a = b.
Proof.
  intros E. pose proof (Byte.of_to_N a) as Ha.
  pose proof (Byte.of_to_N b) as Hb. congruence.
Qed.

(** Linear arithmetic with the divisions and remainders of the digit
    groups. *)
Ltac div_lia := zify; Z.to_euclidean_division_equations; lia.

Lemma b64encode_chars (b : list Byte.byte) :
  Forall (fun a => is_b64_char a = true) (list_ascii_of_string (b64encode b)).
Proof.
  induction b as [|b0|b0 b1|b0 b1 b2 rest IH] using list_ind3.
  - constructor.
  - pose proof (byte_bound b0). cbn [b64encode list_ascii_of_string].
    repeat constructor; apply b64_digit_facts; div_lia.
  - pose proof (byte_bound b0). pose proof (byte_bound b1).
    cbn [b64encode list_ascii_of_string].
    repeat constructor; apply b64_digit_facts; div_lia.
  - pose proof (byte_bound b0). pose proof (byte_bound b1).
    pose proof (byte_bound b2).
    change (b64encode (b0 :: b1 :: b2 :: rest)) with
      (String (b64_digit (Byte.to_N b0 / 4))
         (String (b64_digit ((Byte.to_N b0 mod 4) * 16 + Byte.to_N b1 / 16))
            (String (b64_digit ((Byte.to_N b1 mod 16) * 4 + Byte.to_N b2 / 64))
               (String (b64_digit (Byte.to_N b2 mod 64)) (b64encode rest)))))%N.
    cbn [list_ascii_of_string].
    repeat (apply Forall_cons; [apply b64_digit_facts; div_lia|]).
    exact IH.
Qed.

Lemma b64_digit_not_pad (n : N) : (n < 64)%N -> "="%char <> b64_digit n.
Proof. intros Hn E. now apply (b64_digit_facts n Hn). Qed.

(** Different byte strings have different encodings. *)
Lemma b64encode_inj (x y : list Byte.byte) :
  b64encode x = b64encode y -> x = y.
Proof.
  revert y.
  induction x as [|a0|a0 a1|a0 a1 a2 xs IH] using list_ind3;
    intros [|b0 [|b1 [|b2 ys]]] E;
    try reflexivity; try discriminate;
    repeat match goal with
           | b : Byte.byte |- _ =>
               lazymatch goal with
               | _ : (Byte.to_N b < 256)%N |- _ => fail
               | _ => pose proof (byte_bound b)
               end
           end.
  all: try (change (b64encode (?p :: ?q :: ?r :: ?l)) with
      (String (b64_digit (Byte.to_N p / 4))
         (String (b64_digit ((Byte.to_N p mod 4) * 16 + Byte.to_N q / 16))
            (String (b64_digit ((Byte.to_N q mod 16) * 4 + Byte.to_N r / 64))
               (String (b64_digit (Byte.to_N r mod 64)) (b64encode l)))))%N
      in E).
  all: cbn [b64encode] in E.
  all: injection E; intros.
  all: try (exfalso;
            match goal with
            | H : "="%char = b64_digit ?n |- _ =>
                apply (b64_digit_not_pad n); [div_lia|exact H]
            | H : b64_digit ?n = "="%char |- _ =>
                apply (b64_digit_not_pad n); [div_lia|now symmetry]
            end).
  all: repeat match goal with
              | H : b64_digit ?n = b64_digit ?m |- _ =>
                  apply b64_digit_inj in H; [|div_lia|div_lia]
              end.
  - f_equal. apply byte_to_N_inj. div_lia.
  - f_equal; [|f_equal]; apply byte_to_N_inj; div_lia.
  - assert (E0 : Byte.to_N a0 = Byte.to_N b0) by (clear - H1 H4 H8 H9 H0 H3; div_lia).
    assert (E1 : Byte.to_N a1 = Byte.to_N b1) by (clear - H0 H3 H7 H8 H2 H H1 H4; div_lia).
    assert (E2 : Byte.to_N a2 = Byte.to_N b2) by (clear - H H2 H6 H7 H0 H3; div_lia).
    apply byte_to_N_inj in E0, E1, E2. apply IH in H5. now subst.
Qed.

(** ** ImageHandler.cv2_to_base64: the display string *)

Section Base64Display.
Context {px : Type}.
Variable cv2 : OpenCV px.

(** X9.  The display string of an image is the marker
    [data:image/jpeg;base64,] followed by a base64 text of four characters
    for every three bytes of the JPEG buffer, rounded up. *)
Theorem cv2_to_base64_format (img : ndarray px) (s : string) :
  cv2_to_base64 cv2 img = Return s ->
  exists buffer payload,
    imencode_jpg cv2 img = Return buffer /\
    s = ("data:image/jpeg;base64," ++ payload)%string /\
    Z.of_nat (String.length payload) = 4 * ((len buffer + 2) / 3) /\
    Forall (fun a => is_b64_char a = true) (list_ascii_of_string payload).
Proof.
  unfold cv2_to_base64. destruct (imencode_jpg cv2 img) as [buffer|e];
    cbn [bind]; [|discriminate].
  intros H. injection H as <-. exists buffer, (b64encode buffer).
  split; [reflexivity|]. split; [reflexivity|].
  split; [apply b64encode_length|apply b64encode_chars].
Qed.

(** X10.  Two images with the same display string have the same JPEG
    buffer: the display string loses nothing of the encoded image. *)
Theorem cv2_to_base64_injective (img1 img2 : ndarray px) (s : string) :
  cv2_to_base64 cv2 img1 = Return s ->
  cv2_to_base64 cv2 img2 = Return s ->
  imencode_jpg cv2 img1 = imencode_jpg cv2 img2.
Proof.
  unfold cv2_to_base64.
  destruct (imencode_jpg cv2 img1) as [b1|e1]; cbn [bind]; [|discriminate].
  destruct (imencode_jpg cv2 img2) as [b2|e2]; cbn [bind]; [|discriminate].
  intros H1 H2. injection H1 as <-. injection H2 as H2.
  apply b64encode_inj in H2. now subst.
Qed.
End Base64Display.

(** ** main.py: upload_image *)

Lemma lbind_lift_return {A B : Type} (a : A) (k : A -> logged B) :
  lbind (lift (Return a)) k = k a.
Proof. unfold lbind, lift. now destruct (k a). Qed.

Lemma lbind_lift_raise {A B : Type} (e : exn) (k : A -> logged B) :
  lbind (lift (Raise e)) k = ([], Raise e).
Proof. reflexivity. Qed.

Lemma lbind_return {A B : Type} (log : list detector) (a : A)
    (k : A -> logged B) :
  lbind (log, Return a) k = (log ++ fst (k a), snd (k a)).
Proof. unfold lbind. now destruct (k a). Qed.

Section UploadFacts.
Context {px pil_image region : Type}.
Variable app : App px pil_image region.
Variable file : UploadFile.

Lemma upload_image_unfold :
  upload_image app file =
  match validate_image (image_handler app) (file_read file)
          (file_content_type file) with
  | Raise e => ([], internal_error e)
  | Return (false, error_msg) => ([], HTTPException 400 error_msg)
  | Return (true, _) =>
      match bytes_to_cv2 (cv2_lib app) (file_read file) with
      | Raise e => ([], internal_error e)
      | Return None => ([], HTTPException 400 "Failed to process image")
      | Return (Some img) =>
          match resize_if_needed (image_handler app) img 1920 with
          | Raise e => ([], internal_error e)
          | Return img' => detection_outcome app img'
          end
      end
  end.
Proof.
  unfold upload_image, upload_try. cbv zeta.
  destruct (validate_image _ _ _) as [[[|] msg]|e];
    rewrite ?lbind_lift_return, ?lbind_lift_raise; try reflexivity.
  cbn [negb].
  destruct (bytes_to_cv2 _ _) as [[img|]|e];
    rewrite ?lbind_lift_return, ?lbind_lift_raise; try reflexivity.
  destruct (resize_if_needed _ _ _) as [img'|e];
    rewrite ?lbind_lift_return, ?lbind_lift_raise; try reflexivity.
  unfold detection_outcome.
  destruct (get_best_plate _ _) as [log [[[plate_img bbox]|]|e]];
    [rewrite lbind_return|rewrite lbind_return|reflexivity].
  - unfold plate_outcome.
    destruct (preprocess_for_ocr _ _) as [pre|e];
      rewrite ?lbind_lift_return, ?lbind_lift_raise;
      [|cbn [fst snd]; now rewrite app_nil_r].
    destruct (extract_plate_number _ _) as [[text conf]|];
      (destruct (cv2_to_base64 _ (draw_plates _ _ _)) as [original|e];
       rewrite ?lbind_lift_return, ?lbind_lift_raise;
       [|cbn [fst snd]; now rewrite app_nil_r]);
      (destruct (cv2_to_base64 _ plate_img) as [plate|e];
       rewrite ?lbind_lift_return, ?lbind_lift_raise;
       cbn [fst snd ret]; now rewrite app_nil_r).
  - destruct (cv2_to_base64 _ img') as [original|e];
      rewrite ?lbind_lift_return, ?lbind_lift_raise;
      cbn [fst snd ret]; now rewrite app_nil_r.
Qed.

(** Every stage of the endpoint, one after the other. *)
Ltac upload_stages :=
  rewrite upload_image_unfold;
  destruct (validate_image _ _ _) as [[[|] ?msg]|?e];
  [destruct (bytes_to_cv2 _ _) as [[?img|]|?e];
   [destruct (resize_if_needed _ _ _) as [?img'|?e];
    [unfold detection_outcome;
     destruct (get_best_plate _ _) as [?log [[[?plate_img ?bbox]|]|?e]];
     [unfold plate_outcome;
      destruct (preprocess_for_ocr _ _) as [?pre|?e];
      [destruct (cv2_to_base64 _ (draw_plates _ _ _)) as [?original|?e];
       [destruct (cv2_to_base64 _ _) as [?plate|?e];
        [destruct (extract_plate_number _ _) as [[?text ?conf]|]| ]| ]| ]
     |destruct (cv2_to_base64 _ _) as [?original|?e]| ]| ]| | ]| | ].

(** X11.  The shape of the answer.  A JSON response has status 200; it
    reports success exactly when it carries a plate text and a bounding
    box, and a response without success has no plate text, no bounding
    box and confidence 0.  An error has status 400 or 500. *)
Theorem upload_image_response_shape :
  match snd (upload_image app file) with
  | JSONResponse status c =>
      status = 200 /\
      (success c = true ->
       plate_text c <> None /\ bounding_box c <> None /\ plate_image c <> None) /\
      (success c = false ->
       plate_text c = None /\ bounding_box c = None /\ confidence c = 0%Q)
  | HTTPException status _ => status = 400 \/ status = 500
  end.
Proof.
  upload_stages; cbn; unfold internal_error; auto;
    (split; [reflexivity|]); split; intros H; try discriminate;
    repeat split; discriminate.
Qed.

Lemma get_best_plate_log_head (img : ndarray px) :
  exists log, fst (get_best_plate (plate_detector app) img) = Haarcascade :: log.
Proof.
  rewrite get_best_plate_unfold.
  destruct (detect_plates_returns (plate_detector app) img) as (plates & Hd).
  rewrite Hd. cbn [snd]. destruct plates; eexists; reflexivity.
Qed.

(** X12.  The detection methods run exactly for an upload that passed
    validation, was decoded and was resized without an exception; the
    classifier is then the first to be called. *)
Theorem upload_image_detection_gate :
  (fst (upload_image app file) <> [] <->
   exists msg img img',
     validate_image (image_handler app) (file_read file)
       (file_content_type file) = Return (true, msg) /\
     bytes_to_cv2 (cv2_lib app) (file_read file) = Return (Some img) /\
     resize_if_needed (image_handler app) img 1920 = Return img') /\
  (fst (upload_image app file) <> [] ->
   exists log, fst (upload_image app file) = Haarcascade :: log).
Proof.
  rewrite upload_image_unfold.
  destruct (validate_image _ _ _) as [[[|] msg]|e].
  2-3: split; [split; [intros H; now contradiction H
                      |intros (m & i & i' & H & _); discriminate]
              |intros H; now contradiction H].
  destruct (bytes_to_cv2 _ _) as [[img|]|e].
  2-3: split; [split; [intros H; now contradiction H
                      |intros (m & i & i' & _ & H & _); discriminate]
              |intros H; now contradiction H].
  destruct (resize_if_needed _ _ _) as [img'|e] eqn:Er.
  2: split; [split; [intros H; now contradiction H
                    |intros (m & i & i' & _ & Hi & H); injection Hi as <-;
                     rewrite Er in H; discriminate]
            |intros H; now contradiction H].
  unfold detection_outcome.
  destruct (get_best_plate_log_head img') as (log & Hlog).
  destruct (get_best_plate _ _) as [log' r]. cbn [fst] in *. subst log'.
  split; [split|].
  - intros _. now exists msg, img, img'.
  - intros _. discriminate.
  - intros _. now exists log.
Qed.

(** X13.  A response that reports success carries what the stages
    computed: the text and confidence that [extract_plate_number] read
    from the crop, the box that [get_best_plate] reported for the decoded
    and resized image, the display string of the image with that box
    drawn, and the display string of the crop. *)
Theorem upload_image_success (status : Z) (c : upload_content) :
  snd (upload_image app file) = JSONResponse status c ->
  success c = true ->
  exists msg img img' plate_img bbox text conf plate,
    validate_image (image_handler app) (file_read file)
      (file_content_type file) = Return (true, msg) /\
    bytes_to_cv2 (cv2_lib app) (file_read file) = Return (Some img) /\
    resize_if_needed (image_handler app) img 1920 = Return img' /\
    snd (get_best_plate (plate_detector app) img') =
    Return (Some (plate_img, bbox)) /\
    extract_plate_number (ocr_processor app) plate_img = Some (text, conf) /\
    plate_text c = Some text /\ confidence c = conf /\
    bounding_box c = Some bbox /\
    cv2_to_base64 (cv2_lib app) (draw_plates (cv2_lib app) img' [bbox]) =
    Return (original_image c) /\
    cv2_to_base64 (cv2_lib app) plate_img = Return plate /\
    plate_image c = Some plate.
Proof.
  rewrite upload_image_unfold.
  destruct (validate_image _ _ _) as [[[|] msg]|e] eqn:Ev; try discriminate.
  destruct (bytes_to_cv2 _ _) as [[img|]|e] eqn:Ed; try discriminate.
  destruct (resize_if_needed _ _ _) as [img'|e] eqn:Er; try discriminate.
  unfold detection_outcome.
  destruct (get_best_plate _ _) as [log [[[plate_img bbox]|]|e]] eqn:Eg;
    cbn [snd].
  - unfold plate_outcome.
    destruct (preprocess_for_ocr _ _) as [pre|e]; try discriminate.
    destruct (cv2_to_base64 _ (draw_plates _ _ _)) as [original|e] eqn:Eo;
      try discriminate.
    destruct (cv2_to_base64 _ plate_img) as [plate|e] eqn:Ep;
      try discriminate.
    destruct (extract_plate_number _ _) as [[text conf]|] eqn:Ex;
      intros H Hs; injection H as _ <-; [|discriminate].
    exists msg, img, img', plate_img, bbox, text, conf, plate.
    rewrite Er, Eg, Ex, Eo, Ep. repeat split; reflexivity.
  - destruct (cv2_to_base64 _ img') as [original|e]; try discriminate.
    intros H Hs. injection H as _ <-. discriminate.
  - discriminate.
Qed.

(** X14.  The answer has status 400 exactly when the upload fails
    validation, whose message it then carries, or when the decoder
    returns no image. *)
Theorem upload_image_client_error (detail : string) :
  snd (upload_image app file) = HTTPException 400 detail <->
  validate_image (image_handler app) (file_read file)
    (file_content_type file) = Return (false, detail) \/
  ((exists msg,
      validate_image (image_handler app) (file_read file)
        (file_content_type file) = Return (true, msg)) /\
   bytes_to_cv2 (cv2_lib app) (file_read file) = Return None /\
   detail = "Failed to process image"%string).
Proof.
  upload_stages; cbn [snd]; unfold internal_error;
    (split;
     [intros H; try discriminate;
      try (injection H as <-; first [left; reflexivity
                                    |right; split; [eexists; reflexivity|];
                                     split; reflexivity])
     |intros [H|[[m H] [H' Hd]]]; try discriminate;
      try (injection H as <-; reflexivity);
      try (subst detail; reflexivity)]).
Qed.
End UploadFacts.

Section UploadMore.
Context {px pil_image region : Type}.
Variable app : App px pil_image region.
Variable file : UploadFile.

(** X15.  The answer does not depend on the image [preprocess_for_ocr]
    produces, only on whether it raises: the recognition runs on the crop
    itself.  Replacing the three filters by others that raise on the same
    inputs leaves the outcome and the call log unchanged. *)
Theorem upload_image_ignores_preprocessed
    (gray : ndarray px -> result (ndarray N))
    (smooth threshold : ndarray N -> Z -> Z -> Z -> result (ndarray N)) :
  (forall img,
     same_outcome
       (preprocess_for_ocr (cv2_lib app) img)
       (preprocess_for_ocr
          (cv2_lib (with_filters app gray smooth threshold)) img)) ->
  upload_image (with_filters app gray smooth threshold) file =
  upload_image app file.
Proof.
  intros Hsame. rewrite !upload_image_unfold.
  change (image_handler (with_filters app gray smooth threshold))
    with (image_handler app).
  change (bytes_to_cv2 (cv2_lib (with_filters app gray smooth threshold)))
    with (bytes_to_cv2 (cv2_lib app)).
  destruct (validate_image _ _ _) as [[[|] msg]|e]; try reflexivity.
  destruct (bytes_to_cv2 _ _) as [[img|]|e]; try reflexivity.
  destruct (resize_if_needed _ _ _) as [img'|e]; try reflexivity.
  unfold detection_outcome.
  change (plate_detector (with_filters app gray smooth threshold))
    with (plate_detector app).
  destruct (get_best_plate _ _) as [log [[[plate_img bbox]|]|e]];
    try reflexivity.
  f_equal. unfold plate_outcome.
  specialize (Hsame plate_img). unfold same_outcome in Hsame.
  destruct (preprocess_for_ocr (cv2_lib app) plate_img) as [pre|e];
    destruct (preprocess_for_ocr _ plate_img) as [pre'|e'];
    try contradiction; [reflexivity|now subst].
Qed.

(** X16.  A valid upload that decodes to an oversized image whose shorter
    side is less than 1/1920 of the longer one is answered with status
    500 when [cv2.resize] rejects a size with a zero in it; the detection
    methods are not called. *)
Theorem upload_image_thin_image (msg : string) (img : ndarray px) :
  validate_image (image_handler app) (file_read file)
    (file_content_type file) = Return (true, msg) ->
  bytes_to_cv2 (cv2_lib app) (file_read file) = Return (Some img) ->
  1920 < Z.max (shape0 img) (shape1 img) ->
  shape0 img < 2 ^ 31 -> shape1 img < 2 ^ 31 ->
  Z.min (shape0 img) (shape1 img) * 1920 < Z.max (shape0 img) (shape1 img) ->
  (forall src w h, w = 0 \/ h = 0 ->
     exists e, cv2_resize (image_handler app) src (w, h) = Raise e) ->
  exists detail,
    upload_image app file = ([], HTTPException 500 detail).
Proof.
  intros Hv Hd Hbig H0 H1 Hthin Hreject.
  rewrite upload_image_unfold, Hv, Hd.
  assert (Hres : exists e, resize_if_needed (image_handler app) img 1920 = Raise e).
  { unfold resize_if_needed.
    destruct (Z.ltb_spec 1920 (Z.max (shape0 img) (shape1 img))); [|lia].
    set (m := Z.max (shape0 img) (shape1 img)) in *.
    assert (Hs0 : 0 <= shape0 img) by apply len_nonneg.
    assert (Hs1 : 0 <= shape1 img) by apply len_nonneg.
    assert (Hm : 1920 < m < 2 ^ 31) by lia.
    destruct (int_truediv 1920 m) as [scale|e] eqn:Es;
      [|eexists; reflexivity].
    cbn [bind]. apply Hreject.
    destruct (Z.min_spec (shape0 img) (shape1 img)) as [[_ E]|[_ E]];
      rewrite E in Hthin.
    - right. now apply (scaled_dimension_zero (shape0 img) m scale).
    - left. now apply (scaled_dimension_zero (shape1 img) m scale). }
  destruct Hres as (e & ->). eexists. reflexivity.
Qed.
End UploadMore.

(** ** Concrete runs of the further properties *)

Example extract_all_text_three_runs :
  extract_all_text three_runs tt = str_of "x ka-01 ab MH 12 DE 1433".
Proof. reflexivity. Qed.

Example format_plate_number_spaced :
  format_plate_number (fun c => [c]) (str_of " ka 01 ab ") = str_of "KA01AB".
Proof. reflexivity. Qed.

Example resize_if_needed_black_2x2148 :
  resize_if_needed test_lib black_2x2148 1920 =
  Return (repeat (repeat 0%N 1919) 1).
Proof. vm_compute. reflexivity. Qed.

Example upload_image_40x60 :
  upload_image test_app upload_40x60 =
  ([Haarcascade],
   JSONResponse 200
     (success_content (str_of "KA01AB") (9 # 10)
        "data:image/jpeg;base64,KAA8" "data:image/jpeg;base64,DwAv"
        (2, 30, 40, 10))).
Proof. vm_compute. reflexivity. Qed.

Example upload_image_1x3840 :
  upload_image test_app upload_1x3840 =
  ([],
   HTTPException 500
     "Internal server error while processing image: inv_scale_x > 0 in function 'resize'").
Proof. vm_compute. reflexivity. Qed.

Lemma extract_plate_number_alphanumeric_witness :
  Forall (fun ch => in_AZ09 ch = true) (str_of "KA01AB").
Proof.
  apply (extract_plate_number_alphanumeric three_runs tt
           (str_of "KA01AB") (9 # 10)).
  - apply Exists_cons_tl, Exists_cons_hd. reflexivity.
  - reflexivity.
Defined.

Lemma format_plate_number_fixes_cleaned_witness :
  format_plate_number (fun c => [c]) (str_of "KA01AB") = str_of "KA01AB".
Proof.
  apply (format_plate_number_fixes_cleaned (fun c => [c]) (str_of "KA01AB")).
  repeat constructor.
Defined.

Lemma extract_all_text_segments_witness :
  exists pre post,
    extract_all_text three_runs tt = pre ++ str_of "ka-01 ab" ++ post /\
    pre = flat_map (fun t => t ++ [32%N])
            (firstn 1 (map fst (extract_text three_runs tt))) /\
    post = flat_map (fun t => 32%N :: t)
             (skipn 2 (map fst (extract_text three_runs tt))) /\
    len pre = join_offset [32%N] (map fst (extract_text three_runs tt)) 1.
Proof.
  apply (extract_all_text_segments three_runs tt 1
           (str_of "ka-01 ab") (9 # 10)).
  reflexivity.
Defined.

Lemma detect_plates_contour_method_at_most_ten_witness :
  len [(0, 20, 50, 15); (0, 0, 30, 10)] <= 10.
Proof.
  apply (detect_plates_contour_method_at_most_ten
           (synthetic [] four_contours) black_40x60).
  vm_compute. reflexivity.
Defined.

Lemma get_best_plate_crop_contains_box_witness :
  exists x y w h plate_img,
    snd (get_best_plate (synthetic three_boxes []) black_40x60) =
    Return (Some (plate_img, (x, y, w, h))) /\
    h <= len plate_img <= h + 10 /\
    Forall (fun row => w <= len row <= w + 10) plate_img /\
    forall r c, 0 <= r < h -> 0 <= c < w ->
      pixel_at plate_img (Z.min y 5 + r) (Z.min x 5 + c) =
      pixel_at black_40x60 (y + r) (x + c).
Proof.
  apply (get_best_plate_crop_contains_box
           (synthetic three_boxes []) black_40x60 three_boxes).
  - reflexivity.
  - discriminate.
  - exact black_40x60_rectangular.
  - repeat (apply Forall_cons;
            [vm_compute; repeat split; discriminate|]).
    apply Forall_nil.
Defined.

Lemma validate_image_unsupported_format_witness :
  validate_image test_lib [Byte.x47; Byte.x49] "image/gif" =
  Return (false,
          ("Unsupported format. Use: "
           ++ String.concat ", " (formats_in_set_order test_lib))%string).
Proof.
  apply (validate_image_unsupported_format test_lib
           [Byte.x47; Byte.x49] "image/gif").
  - vm_compute. discriminate.
  - intros [H|[H|[H|[H|[]]]]]; discriminate.
Defined.

Lemma resize_if_needed_output_size_witness :
  1919 <= Z.max (shape0 (repeat (repeat 0%N 1919) 1))
                (shape1 (repeat (repeat 0%N 1919) 1)) <= 1920 /\
  shape0 (repeat (repeat 0%N 1919) 1) <= shape0 black_2x2148 /\
  shape1 (repeat (repeat 0%N 1919) 1) <= shape1 black_2x2148.
Proof.
  apply (resize_if_needed_output_size test_lib black_2x2148).
  - exact test_lib_resize_shape.
  - vm_compute. reflexivity.
  - vm_compute. reflexivity.
  - vm_compute. reflexivity.
  - vm_compute. reflexivity.
Defined.

Lemma resize_if_needed_zero_size_witness :
  exists new_width new_height,
    resize_if_needed test_lib black_1x3840 1920 =
    cv2_resize test_lib black_1x3840 (new_width, new_height) /\
    (new_width = 0 \/ new_height = 0).
Proof.
  apply (resize_if_needed_zero_size test_lib black_1x3840);
    vm_compute; reflexivity.
Defined.

Lemma cv2_to_base64_format_witness :
  exists buffer payload,
    imencode_jpg test_cv2 black_40x60 = Return buffer /\
    "data:image/jpeg;base64,KAA8"%string =
    ("data:image/jpeg;base64," ++ payload)%string /\
    Z.of_nat (String.length payload) = 4 * ((len buffer + 2) / 3) /\
    Forall (fun a => is_b64_char a = true) (list_ascii_of_string payload).
Proof.
  apply (cv2_to_base64_format test_cv2 black_40x60).
  vm_compute. reflexivity.
Defined.

Lemma cv2_to_base64_injective_witness :
  imencode_jpg test_cv2 black_40x60 =
  imencode_jpg test_cv2 (repeat (repeat 255%N 60) 40).
Proof.
  apply (cv2_to_base64_injective test_cv2 black_40x60
           (repeat (repeat 255%N 60) 40) "data:image/jpeg;base64,KAA8");
    vm_compute; reflexivity.
Defined.

Lemma upload_image_success_witness :
  exists msg img img' plate_img bbox text conf plate,
    validate_image (image_handler test_app) (file_read upload_40x60)
      (file_content_type upload_40x60) = Return (true, msg) /\
    bytes_to_cv2 (cv2_lib test_app) (file_read upload_40x60) =
    Return (Some img) /\
    resize_if_needed (image_handler test_app) img 1920 = Return img' /\
    snd (get_best_plate (plate_detector test_app) img') =
    Return (Some (plate_img, bbox)) /\
    extract_plate_number (ocr_processor test_app) plate_img =
    Some (text, conf) /\
    Some (str_of "KA01AB") = Some text /\ (9 # 10)%Q = conf /\
    Some (2, 30, 40, 10) = Some bbox /\
    cv2_to_base64 (cv2_lib test_app)
      (draw_plates (cv2_lib test_app) img' [bbox]) =
    Return "data:image/jpeg;base64,KAA8"%string /\
    cv2_to_base64 (cv2_lib test_app) plate_img = Return plate /\
    Some "data:image/jpeg;base64,DwAv"%string = Some plate.
Proof.
  apply (upload_image_success test_app upload_40x60 200
           (success_content (str_of "KA01AB") (9 # 10)
              "data:image/jpeg;base64,KAA8" "data:image/jpeg;base64,DwAv"
              (2, 30, 40, 10))).
  - vm_compute. reflexivity.
  - reflexivity.
Defined.

Lemma upload_image_ignores_preprocessed_witness :
  upload_image
    (with_filters test_app (fun _ => Return [])
       (fun gray _ _ _ => Return gray) (fun _ _ _ _ => Return []))
    upload_40x60 =
  upload_image test_app upload_40x60.
Proof.
  apply (upload_image_ignores_preprocessed test_app upload_40x60).
  intros img. exact I.
Defined.

Lemma upload_image_thin_image_witness :
  exists detail,
    upload_image test_app upload_1x3840 = ([], HTTPException 500 detail).
Proof.
  apply (upload_image_thin_image test_app upload_1x3840 "" black_1x3840).
  - reflexivity.
  - vm_compute. reflexivity.
  - vm_compute. reflexivity.
  - vm_compute. reflexivity.
  - vm_compute. reflexivity.
  - vm_compute. reflexivity.
  - intros src w h [-> | ->]; cbn [cv2_resize image_handler test_app test_lib].
    + eexists. reflexivity.
    + destruct (0 <? w); eexists; reflexivity.
Defined.

(** ** Two more properties of the selection policies *)

(** X17.  Cleaning a raw text is idempotent: a cleaned text is its own
    cleaned form, whatever the upper-case table above ASCII. *)
Theorem cleaned_of_idempotent {ndarray bbox : Type}
    (self : OCRProcessor ndarray bbox) (text : str) :
  cleaned_of self (cleaned_of self text) = cleaned_of self text.
Proof.
  unfold cleaned_of, re_sub_not_AZ09.
  set (u := upper (toupper self) text).
  assert (H : Forall (fun ch => in_AZ09 ch = true) (filter in_AZ09 u)).
  { apply Forall_forall. intros ch Hch. now apply filter_In in Hch. }
  rewrite (upper_AZ09 _ _ H).
  induction H as [|c s Hc _ IH]; [reflexivity|].
  cbn [filter]. rewrite Hc. now rewrite IH.
Qed.

Section FallbackBox.
Context {px : Type}.
Variable self : PlateDetector px.
Variable img : ndarray px.

(** X18.  When the classifier finds no box, the box that [get_best_plate]
    reports comes from the contour method: its height is not zero and
    its width divided by its height lies in [2, 5]. *)
Theorem get_best_plate_fallback_box_aspect
    (plate_img : ndarray px) (x y w h : Z) :
  Forall (fun c => let '(_, _, w, h) := rect_of self c in
                   - 2 ^ 31 <= w < 2 ^ 31 /\ - 2 ^ 31 <= h < 2 ^ 31)
         (largest_contours self img) ->
  snd (detect_plates self img) = Return [] ->
  snd (get_best_plate self img) = Return (Some (plate_img, (x, y, w, h))) ->
  h <> 0 /\ (2 <= inject_Z w / inject_Z h <= 5)%Q.
Proof.
  intros Hint Hhaar Hres.
  rewrite get_best_plate_result in Hres. unfold boxes_used in Hres.
  rewrite Hhaar in Hres.
  destruct (snd (detect_plates_contour_method self img))
    as [[|p ps]|e] eqn:Ec; try discriminate.
  destruct (crop_largest_selects img (p :: ps))
    as (x' & y' & w' & h' & Hmax & Hcrop); [discriminate|].
  rewrite Hcrop in Hres. injection Hres as _ <- <- <- <-.
  destruct Hmax as (i & Hi & _). apply nth_error_In in Hi.
  unfold detect_plates_contour_method, called in Ec.
  cbn [snd] in Ec. cbv zeta in Ec.
  apply for_each_contour_step in Ec. simpl app in Ec.
  rewrite Ec in Hi. apply in_map_iff in Hi.
  destruct Hi as (c & Hrect & Hc). apply filter_In in Hc.
  destruct Hc as [Hin Hk].
  rewrite Forall_forall in Hint.
  pose proof (keeps_sound self c (Hint c Hin) Hk) as [_ Hks].
  rewrite Hrect in Hks. exact Hks.
Qed.
End FallbackBox.

Lemma get_best_plate_fallback_box_aspect_witness :
  15 <> 0 /\ (2 <= inject_Z 50 / inject_Z 15 <= 5)%Q.
Proof.
  apply (get_best_plate_fallback_box_aspect
           (synthetic [] four_contours) black_40x60
           (repeat (repeat 0%N 55) 25) 0 20 50 15).
  - assert (E : largest_contours (synthetic [] four_contours) black_40x60 =
                [ [(0, 20); (49, 20); (49, 34); (0, 34)];
                  [(0, 0); (29, 0); (29, 9); (0, 9)];
                  [(1, 1); (20, 1); (10, 6)];
                  [(5, 5); (14, 5); (14, 14); (5, 14)] ])
      by (vm_compute; reflexivity).
    rewrite E.
    repeat (apply Forall_cons; [vm_compute; repeat split; discriminate|]).
    apply Forall_nil.
  - reflexivity.
  - vm_compute. reflexivity.
Defined.
